(** * wish/bubbletea: the Bubble Tea middleware for SSH sessions

    A shallow embedding of [bubbletea/tea.go]:
    - [sshEnviron.Getenv], on Go strings (byte sequences);
    - [MakeRenderer] and the colour profile it forces, over the session's
      context store;
    - [newDefaultProgramHandler];
    - [MiddlewareWithProgramHandler], as a transition system with two
      threads (the handler's goroutine and the window-change relay it
      spawns), driven by an explicit schedule.  *)

From Stdlib Require Import List String Ascii ZArith Bool Arith Lia.
Import ListNotations.
Local Open Scope string_scope.
Local Open Scope list_scope.

(** ** Go strings *)

Module GoString.

(** [strings.HasPrefix(s, prefix)]. *)
Definition HasPrefix (s pre : string) : bool := String.prefix pre s.

(** [v[n:]]: the bytes of [v] from index [n] on; Go panics when
    [n > len(v)], which is [None] here. *)
Definition slice_from (v : string) (n : nat) : option string :=
  if Nat.leb n (String.length v)
  then Some (substring n (String.length v - n) v)
  else None.

End GoString.

Import GoString.

(** ** [sshEnviron] *)

Definition sshEnviron := list string.

(** [func (e sshEnviron) Environ() []string]. *)
Definition Environ (e : sshEnviron) : list string := e.

(** [func (e sshEnviron) Getenv(k string) string]: the range loop returns
    at the first entry that has the prefix [k+"="]; [None] stands for the
    panic of an out-of-range slice expression. *)
Fixpoint Getenv (e : sshEnviron) (k : string) : option string :=
  match e with
  | [] => Some ""
  | v :: e' =>
      if HasPrefix v (k ++ "=")
      then slice_from v (String.length k + 1)
      else Getenv e' k
  end.

(** ** termenv colour profiles *)

(** [termenv.Profile] is an integer type; its four constants are numbered
    as [profileNames] indexes them.  This type holds the four constants
    only; what the code does on other integers is [MakeRendererRaw]. *)
Inductive Profile := TrueColor | ANSI256 | ANSI | Ascii.

Definition profileValue (p : Profile) : Z :=
  match p with
  | TrueColor => 0
  | ANSI256 => 1
  | ANSI => 2
  | Ascii => 3
  end.

(** [var profileNames = [4]string{"TrueColor", "ANSI256", "ANSI", "Ascii"}] *)
Definition profileNames : list string := ["TrueColor"; "ANSI256"; "ANSI"; "Ascii"].

(** [profileNames[p]]; an index outside the array panics ([None]). *)
Definition profileNames_at (p : Profile) : option string :=
  nth_error profileNames (Z.to_nat (profileValue p)).

(** The number of colours grows as the integer value falls: the order of
    the capability tiers, lowest first, is Ascii, ANSI, ANSI256, TrueColor. *)
Definition tier (p : Profile) : nat :=
  match p with
  | Ascii => 0
  | ANSI => 1
  | ANSI256 => 2
  | TrueColor => 3
  end.

(** ** The session's context store *)

Inductive ctxKey := minColorProfileKey | otherKey (n : nat).

(** Context values are of type [any]. *)
Inductive ctxValue := VProfile (p : Profile) | VOther (n : nat).

Definition ctxKey_eqb (a b : ctxKey) : bool :=
  match a, b with
  | minColorProfileKey, minColorProfileKey => true
  | otherKey n, otherKey m => Nat.eqb n m
  | _, _ => false
  end.

Definition store := list (ctxKey * ctxValue).

(** [ctx.SetValue(k, v)]: the newest binding shadows the older ones. *)
Definition SetValue (k : ctxKey) (v : ctxValue) (c : store) : store := (k, v) :: c.

(** [ctx.Value(k)] *)
Fixpoint Value (c : store) (k : ctxKey) : option ctxValue :=
  match c with
  | [] => None
  | (k', v) :: c' => if ctxKey_eqb k' k then Some v else Value c' k
  end.

(** The checked type assertion [x.(termenv.Profile)], as [(value, ok)]. *)
Definition asProfile (x : option ctxValue) : option Profile :=
  match x with
  | Some (VProfile p) => Some p
  | _ => None
  end.

(** ** Sessions, renderers, programs *)

Record Window := { Width : Z; Height : Z }.

(** The zero value a receive on a closed channel yields. *)
Definition zeroWindow : Window := {| Width := 0; Height := 0 |}.

Record Session := {
  sess_id : nat;
  sess_environ : sshEnviron;
  (** third result of [s.Pty()] *)
  sess_pty : bool
}.

Record Renderer := {
  renderer_session : nat;
  ColorProfile : Profile
}.

Definition SetColorProfile (r : Renderer) (p : Profile) : Renderer :=
  {| renderer_session := renderer_session r; ColorProfile := p |}.

Inductive ProgramOption := WithInput (s : nat) | WithOutput (s : nat) | OtherOption (n : nat).

Definition Model := nat.

Record Program := { prog_model : Model; prog_opts : list ProgramOption }.

(** [tea.NewProgram(m, opts...)] *)
Definition NewProgram (m : Model) (opts : list ProgramOption) : Program :=
  {| prog_model := m; prog_opts := opts |}.

(** [newRenderer] and [makeOpts] are defined per platform, outside
    [tea.go]; they are taken as parameters. *)
Record Platform := {
  newRenderer : Session -> Renderer;
  makeOpts : Session -> list ProgramOption
}.

(** [type Handler func(ssh.Session) (tea.Model, []tea.ProgramOption)];
    a nil model is [None]. *)
Definition Handler := Session -> option Model * list ProgramOption.

(** [type ProgramHandler func(ssh.Session) *tea.Program]; nil is [None]. *)
Definition ProgramHandler := Session -> option Program.

Definition newDefaultProgramHandler (pf : Platform) (bth : Handler) : ProgramHandler :=
  fun s =>
    let '(m, opts) := bth s in
    match m with
    | None => None
    | Some m => Some (NewProgram m (opts ++ makeOpts pf s))
    end.

(** ** MakeRenderer *)

Definition dquote : string := String (ascii_of_nat 34) EmptyString.

(** The verb [%q] on a string without special characters. *)
Definition quoted (s : string) : string := dquote ++ s ++ dquote.

Definition CRLF : string := String (ascii_of_nat 13) (String (ascii_of_nat 10) EmptyString).

Definition warning (client forced : string) : string :=
  "Warning: Client's terminal is " ++ quoted client ++ ", forcing " ++ quoted forced ++ CRLF.

(** Lines 114-117: the profile stored under [minColorProfileKey], or
    [termenv.Ascii] when the assertion fails. *)
Definition minColorProfile (c : store) : Profile :=
  match asProfile (Value c minColorProfileKey) with
  | Some p => p
  | None => Ascii
  end.

(** [func MakeRenderer(s ssh.Session) *lipgloss.Renderer], with the lines
    [wish.Printf] writes to the session. [None] is a panic. *)
Definition MakeRenderer (pf : Platform) (s : Session) (c : store)
  : option (Renderer * list string) :=
  let cp := minColorProfile c in
  let r := newRenderer pf s in
  if (profileValue (ColorProfile r) >? profileValue cp)%Z
  then match profileNames_at (ColorProfile r), profileNames_at cp with
       | Some n1, Some n2 => Some (SetColorProfile r cp, [warning n1 n2])
       | _, _ => None
       end
  else Some (r, []).

(** ** MiddlewareWithProgramHandler as a transition system

    The handler returned by the middleware runs on the session's goroutine
    (the main thread below) and spawns one goroutine, the relay.  The
    state holds the program counter and the live locals of each thread, the
    context, and the window-change channel; a schedule chooses which thread
    moves, which case a ready [select] takes, and what the transport and
    the parent context do meanwhile.  Every transition is labelled with the
    call it performs. *)

Definition error := string.

(** [tea.WindowSizeMsg] *)
Record WindowSizeMsg := { msg_Width : Z; msg_Height : Z }.

Definition toMsg (w : Window) : WindowSizeMsg :=
  {| msg_Width := Width w; msg_Height := Height w |}.

Inductive event :=
| ESetValue (k : ctxKey) (v : ctxValue)   (* s.Context().SetValue(k, v) *)
| EPty                                    (* s.Pty() *)
| EFatalln (msg : string)                 (* wish.Fatalln(s, msg) *)
| EHandler (r : option Program)           (* bth(s), with its result *)
| ENext                                   (* h(s) *)
| EWithCancel                             (* context.WithCancel(s.Context()) *)
| EGo                                     (* go func() { ... }() *)
| ERunCall                                (* p.Run() is entered *)
| ERunReturn (err : option error)         (* p.Run() returns *)
| ELogError (msg : string) (err : error)  (* log.Error(msg, "error", err) *)
| EKill                                   (* p.Kill() *)
| ECancel                                 (* cancel() *)
| ERelayDone                              (* case <-ctx.Done() *)
| EQuit                                   (* p.Quit() *)
| ERelayRecv (w : Window)                 (* case w := <-windowChanges *)
| ESend (m : WindowSizeMsg)               (* p.Send(m) *)
| EResize (w : Window)                    (* the transport puts w on the feed *)
| EFeedClosed                             (* the transport closes the feed *)
| EParentDone.                            (* s.Context() is cancelled *)

Record Config := {
  cfg_session : Session;
  cfg_bth : ProgramHandler;
  cfg_profile : Profile;
  (** what [p.Run()] returns, once it returns *)
  cfg_run : Program -> option error
}.

(** Program points of the handler, named after the statement about to
    run, with the locals in scope. *)
Inductive mainpc :=
| MSetValue                        (* line 71 *)
| MPty                             (* line 72 *)
| MFatalln                         (* line 74 *)
| MHandler                         (* line 77 *)
| MDecline                         (* line 79 *)
| MWithCancel (p : Program)        (* line 82 *)
| MGo (p : Program)                (* line 83 *)
| MRun (p : Program)               (* line 94, before the call *)
| MInRun (p : Program)             (* line 94, inside p.Run() *)
| MLog (p : Program) (err : error) (* line 95 *)
| MKill (p : Program)              (* line 100 *)
| MCancel (p : Program)            (* line 101 *)
| MNext (p : Program)              (* line 102 *)
| MReturned.

(** Program points of the relay goroutine. *)
Inductive relaypc :=
| RNone                (* not spawned *)
| RSelect              (* line 85 *)
| RQuit                (* line 87 *)
| RSend (w : Window)   (* line 90 *)
| RReturned.           (* line 88 *)

Record State := {
  st_main : mainpc;
  st_relay : relaypc;
  st_store : store;
  (** [cancel()] was called *)
  st_cancelled : bool;
  (** the session's own context is done *)
  st_parent_done : bool;
  (** values buffered in [windowChanges], oldest first *)
  st_feed : list Window;
  st_feed_closed : bool
}.

Definition init : State :=
  {| st_main := MSetValue; st_relay := RNone; st_store := [];
     st_cancelled := false; st_parent_done := false;
     st_feed := []; st_feed_closed := false |}.

Definition set_main (pc : mainpc) (st : State) : State :=
  {| st_main := pc; st_relay := st_relay st; st_store := st_store st;
     st_cancelled := st_cancelled st; st_parent_done := st_parent_done st;
     st_feed := st_feed st; st_feed_closed := st_feed_closed st |}.

Definition set_relay (pc : relaypc) (st : State) : State :=
  {| st_main := st_main st; st_relay := pc; st_store := st_store st;
     st_cancelled := st_cancelled st; st_parent_done := st_parent_done st;
     st_feed := st_feed st; st_feed_closed := st_feed_closed st |}.

Definition set_store (c : store) (st : State) : State :=
  {| st_main := st_main st; st_relay := st_relay st; st_store := c;
     st_cancelled := st_cancelled st; st_parent_done := st_parent_done st;
     st_feed := st_feed st; st_feed_closed := st_feed_closed st |}.

Definition set_cancelled (st : State) : State :=
  {| st_main := st_main st; st_relay := st_relay st; st_store := st_store st;
     st_cancelled := true; st_parent_done := st_parent_done st;
     st_feed := st_feed st; st_feed_closed := st_feed_closed st |}.

Definition set_parent_done (st : State) : State :=
  {| st_main := st_main st; st_relay := st_relay st; st_store := st_store st;
     st_cancelled := st_cancelled st; st_parent_done := true;
     st_feed := st_feed st; st_feed_closed := st_feed_closed st |}.

Definition set_feed (q : list Window) (st : State) : State :=
  {| st_main := st_main st; st_relay := st_relay st; st_store := st_store st;
     st_cancelled := st_cancelled st; st_parent_done := st_parent_done st;
     st_feed := q; st_feed_closed := st_feed_closed st |}.

Definition set_feed_closed (st : State) : State :=
  {| st_main := st_main st; st_relay := st_relay st; st_store := st_store st;
     st_cancelled := st_cancelled st; st_parent_done := st_parent_done st;
     st_feed := st_feed st; st_feed_closed := true |}.

(** [ctx] is derived from the session's context: it is done once
    [cancel()] was called or the parent is done. *)
Definition ctx_done (st : State) : bool := st_cancelled st || st_parent_done st.

(** One statement of the handler (lines 71-102). *)
Definition step_main (cfg : Config) (st : State) : option (event * State) :=
  let s := cfg_session cfg in
  match st_main st with
  | MSetValue =>
      let v := VProfile (cfg_profile cfg) in
      Some (ESetValue minColorProfileKey v,
            set_store (SetValue minColorProfileKey v (st_store st)) (set_main MPty st))
  | MPty =>
      Some (EPty, set_main (if sess_pty s then MHandler else MFatalln) st)
  | MFatalln =>
      Some (EFatalln "no active terminal, skipping", set_main MReturned st)
  | MHandler =>
      let r := cfg_bth cfg s in
      Some (EHandler r,
            set_main (match r with None => MDecline | Some p => MWithCancel p end) st)
  | MDecline => Some (ENext, set_main MReturned st)
  | MWithCancel p => Some (EWithCancel, set_main (MGo p) st)
  | MGo p => Some (EGo, set_relay RSelect (set_main (MRun p) st))
  | MRun p => Some (ERunCall, set_main (MInRun p) st)
  | MInRun p =>
      let r := cfg_run cfg p in
      Some (ERunReturn r,
            set_main (match r with Some err => MLog p err | None => MKill p end) st)
  | MLog p err => Some (ELogError "app exit with error" err, set_main (MKill p) st)
  | MKill p => Some (EKill, set_main (MCancel p) st)
  | MCancel p => Some (ECancel, set_cancelled (set_main (MNext p) st))
  | MNext p => Some (ENext, set_main MReturned st)
  | MReturned => None
  end.

(** The relay's [select] (lines 85-91) takes the case [<-ctx.Done()];
    ready only when [ctx] is done. *)
Definition select_done (st : State) : option (event * State) :=
  match st_relay st with
  | RSelect => if ctx_done st then Some (ERelayDone, set_relay RQuit st) else None
  | _ => None
  end.

(** The relay's [select] takes the case [w := <-windowChanges]; ready when
    a value is buffered, or when the channel is closed, which yields the
    zero value. *)
Definition select_recv (st : State) : option (event * State) :=
  match st_relay st with
  | RSelect =>
      match st_feed st with
      | w :: q => Some (ERelayRecv w, set_feed q (set_relay (RSend w) st))
      | [] => if st_feed_closed st
              then Some (ERelayRecv zeroWindow, set_relay (RSend zeroWindow) st)
              else None
      end
  | _ => None
  end.

(** The statement of the relay after its [select]: lines 87-88 or line 90.
    The step is the completed call of [p.Quit()] or [p.Send(...)]; when the
    program lets such a call complete is up to the schedule, not decided
    here. *)
Definition step_relay (st : State) : option (event * State) :=
  match st_relay st with
  | RQuit => Some (EQuit, set_relay RReturned st)
  | RSend w => Some (ESend (toMsg w), set_relay RSelect st)
  | _ => None
  end.

Inductive choice :=
| StepMain
| SelectDone
| SelectRecv
| StepRelay
| Resize (w : Window)
| CloseFeed
| CancelParent.

(** The transport owns the feed: it exists for a session with a pty, takes
    values until it is closed, and is closed once. *)
Definition step (cfg : Config) (c : choice) (st : State) : option (event * State) :=
  match c with
  | StepMain => step_main cfg st
  | SelectDone => select_done st
  | SelectRecv => select_recv st
  | StepRelay => step_relay st
  | Resize w =>
      if sess_pty (cfg_session cfg) && negb (st_feed_closed st)
      then Some (EResize w, set_feed (st_feed st ++ [w]) st)
      else None
  | CloseFeed =>
      if sess_pty (cfg_session cfg) && negb (st_feed_closed st)
      then Some (EFeedClosed, set_feed_closed st)
      else None
  | CancelParent =>
      if st_parent_done st then None else Some (EParentDone, set_parent_done st)
  end.

(** Running a schedule from a state with the trace so far; a choice that
    is not enabled makes the schedule invalid. *)
Fixpoint run (cfg : Config) (sch : list choice) (st : State) (tr : list event)
  : option (State * list event) :=
  match sch with
  | [] => Some (st, tr)
  | c :: sch' =>
      match step cfg c st with
      | Some (e, st') => run cfg sch' st' (tr ++ [e])
      | None => None
      end
  end.

Definition exec (cfg : Config) (sch : list choice) : option (State * list event) :=
  run cfg sch init [].

(** ** Observations on traces *)

Definition is_SetValue (e : event) : bool :=
  match e with ESetValue _ _ => true | _ => false end.
Definition is_Handler (e : event) : bool :=
  match e with EHandler _ => true | _ => false end.
Definition is_Next (e : event) : bool :=
  match e with ENext => true | _ => false end.
Definition is_Go (e : event) : bool :=
  match e with EGo => true | _ => false end.
Definition is_RunCall (e : event) : bool :=
  match e with ERunCall => true | _ => false end.
Definition is_RunReturn (e : event) : bool :=
  match e with ERunReturn _ => true | _ => false end.
Definition is_Kill (e : event) : bool :=
  match e with EKill => true | _ => false end.
Definition is_Cancel (e : event) : bool :=
  match e with ECancel => true | _ => false end.
Definition is_RelayDone (e : event) : bool :=
  match e with ERelayDone => true | _ => false end.
Definition is_Quit (e : event) : bool :=
  match e with EQuit => true | _ => false end.
Definition is_Send (e : event) : bool :=
  match e with ESend _ => true | _ => false end.
Definition is_ParentDone (e : event) : bool :=
  match e with EParentDone => true | _ => false end.

(** What makes [ctx] done: the handler's [cancel()] or the end of the
    session's own context. *)
Definition is_cancellation (e : event) : bool := is_Cancel e || is_ParentDone e.

(** Events of the handler's own thread. *)
Definition is_main (e : event) : bool :=
  match e with
  | ESetValue _ _ | EPty | EFatalln _ | EHandler _ | ENext | EWithCancel | EGo
  | ERunCall | ERunReturn _ | ELogError _ _ | EKill | ECancel => true
  | _ => false
  end.

(** Events of the relay goroutine. *)
Definition is_relay (e : event) : bool :=
  match e with
  | ERelayDone | EQuit | ERelayRecv _ | ESend _ => true
  | _ => false
  end.

Definition count (f : event -> bool) (tr : list event) : nat :=
  List.length (filter f tr).

Definition occurs (f : event -> bool) (tr : list event) : bool := existsb f tr.

(** Every event of kind [g] in the trace comes strictly after some event of
    kind [f]. *)
Fixpoint after_some (f g : event -> bool) (seen : bool) (tr : list event) : bool :=
  match tr with
  | [] => true
  | e :: tr' => (negb (g e) || seen) && after_some f g (seen || f e) tr'
  end.

Definition preceded (f g : event -> bool) (tr : list event) : bool :=
  after_some f g false tr.

(** No event of kind [g] in the trace comes after an event of kind [f]. *)
Fixpoint none_after_from (f g : event -> bool) (seen : bool) (tr : list event) : bool :=
  match tr with
  | [] => true
  | e :: tr' => negb (seen && g e) && none_after_from f g (seen || f e) tr'
  end.

Definition none_after (f g : event -> bool) (tr : list event) : bool :=
  none_after_from f g false tr.

(** The messages passed to [p.Send], the values the relay received, and
    the values the transport put on the feed, in order. *)
Definition sends (tr : list event) : list WindowSizeMsg :=
  flat_map (fun e => match e with ESend m => [m] | _ => [] end) tr.

Definition received (tr : list event) : list Window :=
  flat_map (fun e => match e with ERelayRecv w => [w] | _ => [] end) tr.

Definition resizes (tr : list event) : list Window :=
  flat_map (fun e => match e with EResize w => [w] | _ => [] end) tr.

(** ** What each program point has done

    The handler's thread is sequential: at each program point the calls it
    has made so far are fixed by the configuration. *)

Definition set_profile (cfg : Config) : event :=
  ESetValue minColorProfileKey (VProfile (cfg_profile cfg)).

Definition hist_handler (cfg : Config) (r : option Program) : list event :=
  [set_profile cfg; EPty; EHandler r].

Definition hist_started (cfg : Config) (p : Program) : list event :=
  hist_handler cfg (Some p) ++ [EWithCancel; EGo; ERunCall].

Definition hist_ran (cfg : Config) (p : Program) : list event :=
  hist_started cfg p ++
  ERunReturn (cfg_run cfg p) ::
  match cfg_run cfg p with
  | Some err => [ELogError "app exit with error" err]
  | None => []
  end.

(** The calls of a whole run of the handler. *)
Definition hist_complete (cfg : Config) : list event :=
  let s := cfg_session cfg in
  if sess_pty s
  then match cfg_bth cfg s with
       | None => hist_handler cfg None ++ [ENext]
       | Some p => hist_ran cfg p ++ [EKill; ECancel; ENext]
       end
  else [set_profile cfg; EPty; EFatalln "no active terminal, skipping"].

Definition main_hist (cfg : Config) (pc : mainpc) : list event :=
  match pc with
  | MSetValue => []
  | MPty => [set_profile cfg]
  | MFatalln | MHandler => [set_profile cfg; EPty]
  | MDecline => hist_handler cfg None
  | MWithCancel p => hist_handler cfg (Some p)
  | MGo p => hist_handler cfg (Some p) ++ [EWithCancel]
  | MRun p => hist_handler cfg (Some p) ++ [EWithCancel; EGo]
  | MInRun p => hist_started cfg p
  | MLog p err => hist_started cfg p ++ [ERunReturn (Some err)]
  | MKill p => hist_ran cfg p
  | MCancel p => hist_ran cfg p ++ [EKill]
  | MNext p => hist_ran cfg p ++ [EKill; ECancel]
  | MReturned => hist_complete cfg
  end.

(** The program points a configuration can reach. *)
Definition main_ok (cfg : Config) (pc : mainpc) : Prop :=
  let s := cfg_session cfg in
  match pc with
  | MSetValue | MPty | MReturned => True
  | MFatalln => sess_pty s = false
  | MHandler => sess_pty s = true
  | MDecline => sess_pty s = true /\ cfg_bth cfg s = None
  | MLog p err =>
      sess_pty s = true /\ cfg_bth cfg s = Some p /\ cfg_run cfg p = Some err
  | MWithCancel p | MGo p | MRun p | MInRun p | MKill p | MCancel p | MNext p =>
      sess_pty s = true /\ cfg_bth cfg s = Some p
  end.

(** Whether the [go] statement of line 83 has run. *)
Definition relay_spawned (cfg : Config) (pc : mainpc) : bool :=
  match pc with
  | MSetValue | MPty | MFatalln | MHandler | MDecline | MWithCancel _ | MGo _ => false
  | MRun _ | MInRun _ | MLog _ _ | MKill _ | MCancel _ | MNext _ => true
  | MReturned =>
      sess_pty (cfg_session cfg) &&
      match cfg_bth cfg (cfg_session cfg) with Some _ => true | None => false end
  end.

(** The relay's completed iterations, one receive and one send each. *)
Definition relay_pairs (ws : list Window) : list event :=
  flat_map (fun w => [ERelayRecv w; ESend (toMsg w)]) ws.

(** What the relay has done since its last completed iteration. *)
Definition relay_tail (pc : relaypc) : list event :=
  match pc with
  | RNone | RSelect => []
  | RSend w => [ERelayRecv w]
  | RQuit => [ERelayDone]
  | RReturned => [ERelayDone; EQuit]
  end.

Definition relay_running (pc : relaypc) : bool :=
  match pc with RNone => false | _ => true end.

Definition relay_left (pc : relaypc) : bool :=
  match pc with RQuit | RReturned => true | _ => false end.

Record Inv (cfg : Config) (st : State) (tr : list event) : Prop := {
  inv_main_ok : main_ok cfg (st_main st);
  inv_main : filter is_main tr = main_hist cfg (st_main st);
  inv_store :
    st_store st = match st_main st with
                  | MSetValue => []
                  | _ => [(minColorProfileKey, VProfile (cfg_profile cfg))]
                  end;
  inv_cancelled : st_cancelled st = occurs is_Cancel tr;
  inv_parent : st_parent_done st = occurs is_ParentDone tr;
  inv_spawned : relay_running (st_relay st) = relay_spawned cfg (st_main st);
  inv_relay :
    exists ws,
      filter is_relay tr = relay_pairs ws ++ relay_tail (st_relay st) /\
      (st_relay st = RNone -> ws = []);
  inv_left : relay_left (st_relay st) = true -> ctx_done st = true;
  inv_feed : st_feed_closed st = false -> received tr ++ st_feed st = resizes tr
}.

(** The number of statements the handler has left to run. *)
Definition main_left (cfg : Config) (pc : mainpc) : nat :=
  let s := cfg_session cfg in
  let from_run p := match cfg_run cfg p with Some _ => 5 | None => 4 end in
  let from_handler :=
    match cfg_bth cfg s with None => 2 | Some p => 4 + from_run p end in
  let from_pty := if sess_pty s then 1 + from_handler else 2 in
  match pc with
  | MSetValue => 1 + from_pty
  | MPty => from_pty
  | MFatalln => 1
  | MHandler => from_handler
  | MDecline => 1
  | MWithCancel p => 3 + from_run p
  | MGo p => 2 + from_run p
  | MRun p => 1 + from_run p
  | MInRun p => from_run p
  | MLog _ _ => 4
  | MKill _ => 3
  | MCancel _ => 2
  | MNext _ => 1
  | MReturned => 0
  end.

(** ** The claims of the specification, in its own words *)

Module Spec.

(** Negotiation as the specification words it: the configured capability
    is the minimum of the client's capability and the declared one in the
    ascending order of tiers, with a diagnostic exactly when the client's
    is the higher one. *)
Definition negotiates_min (pf : Platform) (s : Session) (c : store) (F : Profile) : Prop :=
  let C := ColorProfile (newRenderer pf s) in
  exists r out,
    MakeRenderer pf s c = Some (r, out) /\
    tier (ColorProfile r) = Nat.min (tier C) (tier F) /\
    (out <> [] <-> tier F < tier C).

(** Without a stored capability the renderer is configured with the
    lowest tier. *)
Definition defaults_to_lowest (pf : Platform) (s : Session) (c : store) : Prop :=
  asProfile (Value c minColorProfileKey) = None ->
  exists r out, MakeRenderer pf s c = Some (r, out) /\ ColorProfile r = Ascii.

(** A session without a pty falls through: the next handler has run
    exactly once when the middleware returns. *)
Definition no_pty_falls_through (cfg : Config) : Prop :=
  sess_pty (cfg_session cfg) = false ->
  forall sch st tr,
    exec cfg sch = Some (st, tr) -> st_main st = MReturned ->
    occurs is_Handler tr = false /\ count is_Next tr = 1.

(** No message is passed to the worker after its [Run] has returned. *)
Definition no_send_after_return (cfg : Config) : Prop :=
  forall sch st tr,
    exec cfg sch = Some (st, tr) ->
    none_after is_RunReturn is_Send tr = true.

End Spec.

(** ** Concrete sessions used to exercise the definitions *)

Module Fixtures.

Definition env0 : sshEnviron := ["TERM=xterm"; "LANG=C=D"; "TERM=vt100"; "TERMINAL=x"].

Definition s_pty : Session := {| sess_id := 1; sess_environ := env0; sess_pty := true |}.

Definition s_nopty : Session := {| sess_id := 2; sess_environ := env0; sess_pty := false |}.

(** A platform whose renderer detects the given profile. *)
Definition platform (client : Profile) : Platform :=
  {| newRenderer := fun s => {| renderer_session := sess_id s; ColorProfile := client |};
     makeOpts := fun s => [WithInput (sess_id s); WithOutput (sess_id s)] |}.

Definition stored (F : Profile) : store := SetValue minColorProfileKey (VProfile F) [].

Definition prog0 : Program := NewProgram 7 [WithInput 1; WithOutput 1].

Definition w1 : Window := {| Width := 80; Height := 24 |}.
Definition w2 : Window := {| Width := 120; Height := 40 |}.

(** A session with a pty whose program runs and exits as [r] says. *)
Definition cfg_run_with (r : option error) : Config :=
  {| cfg_session := s_pty; cfg_bth := fun _ => Some prog0;
     cfg_profile := ANSI256; cfg_run := fun _ => r |}.

(** A session with a pty whose declarative handler returns a nil model. *)
Definition cfg_decline : Config :=
  {| cfg_session := s_pty;
     cfg_bth := newDefaultProgramHandler (platform Ascii)
                  (fun _ => (None, [OtherOption 3]));
     cfg_profile := Ascii; cfg_run := fun _ => None |}.

(** A session without a pty. *)
Definition cfg_nopty : Config :=
  {| cfg_session := s_nopty; cfg_bth := fun _ => Some prog0;
     cfg_profile := Ascii; cfg_run := fun _ => None |}.

End Fixtures.

(** ** MakeRenderer on the integer values

    [termenv.Profile] is an [int]: the profile declared to the middleware,
    and so the one found on the context, can be any integer, not only one of
    the four constants.  Lines 114-123 on the integer values themselves:
    [client] is [r.ColorProfile()] and [stored] the outcome of the checked
    type assertion. *)

(** [profileNames[i]] for an integer index: outside [0, 4) it panics. *)
Definition rawProfileNames_at (i : Z) : option string :=
  if ((0 <=? i) && (i <? 4))%Z then nth_error profileNames (Z.to_nat i) else None.

Definition rawMinColorProfile (stored : option Z) : Z :=
  match stored with
  | Some cp => cp
  | None => profileValue Ascii
  end.

(** The profile the renderer ends with and the lines written; [None] is
    the panic of an index out of range. *)
Definition MakeRendererRaw (client : Z) (stored : option Z) : option (Z * list string) :=
  let cp := rawMinColorProfile stored in
  if (client >? cp)%Z
  then match rawProfileNames_at client, rawProfileNames_at cp with
       | Some n1, Some n2 => Some (cp, [warning n1 n2])
       | _, _ => None
       end
  else Some (client, []).

(** ** The exported middlewares *)

(** [MiddlewareWithProgramHandler(bth, p)] applied to a session: the
    handler it returns runs with this configuration; [run] says what the
    program's [Run] returns. *)
Definition MiddlewareWithProgramHandler (bth : ProgramHandler) (p : Profile)
    (s : Session) (run : Program -> option error) : Config :=
  {| cfg_session := s; cfg_bth := bth; cfg_profile := p; cfg_run := run |}.

(** [func Middleware(bth Handler) wish.Middleware] *)
Definition Middleware (pf : Platform) (bth : Handler) :=
  MiddlewareWithProgramHandler (newDefaultProgramHandler pf bth) Ascii.

(** ** Environments as name/value pairs *)

Module Env.

(** Whether a string contains the byte [=]. *)
Fixpoint has_eq (s : string) : bool :=
  match s with
  | EmptyString => false
  | String c s' => if Ascii.eqb c "="%char then true else has_eq s'
  end.

(** The entry [name=value] of an environment. *)
Definition entry (n v : string) : string := (n ++ "=" ++ v)%string.

Definition environ_of (l : list (string * string)) : sshEnviron :=
  map (fun nv => entry (fst nv) (snd nv)) l.

(** The value of the first pair named [k], or the empty string. *)
Fixpoint lookup (l : list (string * string)) (k : string) : string :=
  match l with
  | [] => ""
  | (n, v) :: l' => if String.eqb n k then v else lookup l' k
  end.

End Env.

(** ** More observations *)

Definition is_Log (e : event) : bool :=
  match e with ELogError _ _ => true | _ => false end.

Definition is_some {A : Type} (o : option A) : bool :=
  match o with Some _ => true | None => false end.

(** What the relay has taken from the feed, with what is still buffered,
    is what the transport put on it followed by the zero values received
    after it was closed and drained. *)
Definition feed_account (st : State) (tr : list event) : Prop :=
  exists n,
    received tr ++ st_feed st = resizes tr ++ repeat zeroWindow n /\
    (st_feed_closed st = false -> n = 0) /\
    (st_feed st <> [] -> n = 0).

(** * Properties *)

(** ** Go strings *)

Section GoStringFacts.

Import GoString.
Local Open Scope string_scope.

Lemma length_append (a b : string) :
  String.length (a ++ b) = String.length a + String.length b.
Proof.
  induction a as [|c a IH]; simpl; [reflexivity | now rewrite IH].
Qed.

Lemma append_assoc (a b c : string) : (a ++ b) ++ c = a ++ (b ++ c).
Proof.
  induction a as [|x a IH]; simpl; [reflexivity | now rewrite IH].
Qed.

Lemma substring_all (s : string) : substring 0 (String.length s) s = s.
Proof.
  induction s as [|c s IH]; simpl; [reflexivity | now rewrite IH].
Qed.

Lemma substring_skip (a b : string) (m : nat) :
  substring (String.length a) m (a ++ b) = substring 0 m b.
Proof.
  induction a as [|c a IH]; simpl; [reflexivity | exact IH].
Qed.

Lemma HasPrefix_append (pre rest : string) : HasPrefix (pre ++ rest) pre = true.
Proof.
  unfold HasPrefix.
  induction pre as [|c pre IH]; simpl.
  - now destruct rest.
  - destruct (ascii_dec c c) as [_|N]; [exact IH | now elim N].
Qed.

Lemma HasPrefix_split (s pre : string) :
  HasPrefix s pre = true -> exists rest, s = pre ++ rest.
Proof.
  unfold HasPrefix. revert s.
  induction pre as [|c pre IH]; intros s H.
  - exists s. reflexivity.
  - destruct s as [|d s]; simpl in H; [discriminate|].
    destruct (ascii_dec c d) as [->|_]; [|discriminate].
    destruct (IH s H) as [rest ->]. exists rest. reflexivity.
Qed.

Lemma slice_from_append (pre rest : string) :
  slice_from (pre ++ rest) (String.length pre) = Some rest.
Proof.
  unfold slice_from. rewrite length_append.
  replace (Nat.leb (String.length pre) (String.length pre + String.length rest))
    with true by (symmetry; apply Nat.leb_le; lia).
  replace (String.length pre + String.length rest - String.length pre)
    with (String.length rest) by lia.
  now rewrite substring_skip, substring_all.
Qed.

End GoStringFacts.

(** ** Getenv *)

Example Getenv_TERM : Getenv Fixtures.env0 "TERM" = Some "xterm".
Proof. reflexivity. Qed.

Example Getenv_LANG : Getenv Fixtures.env0 "LANG" = Some "C=D".
Proof. reflexivity. Qed.

Example Getenv_missing : Getenv Fixtures.env0 "HOME" = Some "".
Proof. reflexivity. Qed.

(** C10. [Getenv e k] never panics.  When no entry of [e] has the prefix
    [k=] it returns the empty string; otherwise [e] splits at its first entry
    with that prefix, [k=rest], and the result is [rest].  The method only
    reads its receiver: [Environ e] is [e]. *)
Theorem Getenv_first_match (e : sshEnviron) (k : string) :
  Environ e = e /\
  ((Forall (fun v => HasPrefix v (k ++ "=") = false) e /\ Getenv e k = Some "") \/
   (exists e1 rest e2,
      e = e1 ++ (k ++ "=" ++ rest)%string :: e2 /\
      Forall (fun v => HasPrefix v (k ++ "=") = false) e1 /\
      Getenv e k = Some rest)).
Proof.
  split; [reflexivity|].
  induction e as [|v e IH].
  - left. split; [constructor | reflexivity].
  - simpl. destruct (HasPrefix v (k ++ "=")) eqn:Hv.
    + right. destruct (HasPrefix_split _ _ Hv) as [rest ->].
      exists [], rest, e. rewrite append_assoc. repeat split.
      * constructor.
      * rewrite <- append_assoc.
        replace (String.length k + 1) with (String.length (k ++ "="))
          by (rewrite length_append; reflexivity).
        apply slice_from_append.
    + destruct IH as [[Hall Hg] | (e1 & rest & e2 & -> & Hall & Hg)].
      * left. split; [constructor; assumption | assumption].
      * right. exists (v :: e1), rest, e2. repeat split.
        -- constructor; assumption.
        -- assumption.
Qed.

(** ** MakeRenderer *)

Lemma profileNames_at_total (p : Profile) : exists n, profileNames_at p = Some n.
Proof. destruct p; eexists; reflexivity. Qed.

Lemma profileValue_tier (p q : Profile) :
  (profileValue p >? profileValue q)%Z = (tier p <? tier q)%nat.
Proof. destruct p, q; reflexivity. Qed.

Example MakeRenderer_forces_up :
  MakeRenderer (Fixtures.platform Ascii) Fixtures.s_pty (Fixtures.stored TrueColor)
  = Some ({| renderer_session := 1; ColorProfile := TrueColor |},
          [warning "Ascii" "TrueColor"]).
Proof. reflexivity. Qed.

Example MakeRenderer_keeps_richer_client :
  MakeRenderer (Fixtures.platform TrueColor) Fixtures.s_pty (Fixtures.stored ANSI)
  = Some ({| renderer_session := 1; ColorProfile := TrueColor |}, []).
Proof. reflexivity. Qed.

(** C2, as amended. With the profile [F] stored on the session's context
    and [C] the profile of the session's fresh renderer, [MakeRenderer]
    returns a renderer whose profile is the higher of the two tiers,
    max(C, F) in the order Ascii < ANSI < ANSI256 < TrueColor; it writes
    one line naming both profiles exactly when C is below F, and nothing
    otherwise. *)
Theorem MakeRenderer_forces_minimum
    (pf : Platform) (s : Session) (c : store) (F : Profile) :
  Value c minColorProfileKey = Some (VProfile F) ->
  exists r out nC nF,
    MakeRenderer pf s c = Some (r, out) /\
    profileNames_at (ColorProfile (newRenderer pf s)) = Some nC /\
    profileNames_at F = Some nF /\
    renderer_session r = renderer_session (newRenderer pf s) /\
    tier (ColorProfile r) = Nat.max (tier (ColorProfile (newRenderer pf s))) (tier F) /\
    out = (if (tier (ColorProfile (newRenderer pf s)) <? tier F)%nat
           then [warning nC nF] else []).
Proof.
  intros HF.
  unfold MakeRenderer, minColorProfile. rewrite HF. simpl asProfile. cbv zeta.
  rewrite profileValue_tier.
  destruct (profileNames_at_total (ColorProfile (newRenderer pf s))) as [nC HC].
  destruct (profileNames_at_total F) as [nF HnF].
  rewrite HC, HnF.
  destruct (tier (ColorProfile (newRenderer pf s)) <? tier F)%nat eqn:Hlt.
  - apply Nat.ltb_lt in Hlt.
    exists (SetColorProfile (newRenderer pf s) F), [warning nC nF], nC, nF.
    repeat split. simpl. lia.
  - apply Nat.ltb_ge in Hlt.
    exists (newRenderer pf s), [], nC, nF.
    repeat split. lia.
Qed.

Lemma MakeRenderer_forces_minimum_witness :
  Value (Fixtures.stored ANSI256) minColorProfileKey = Some (VProfile ANSI256) /\
  exists r out nC nF,
    MakeRenderer (Fixtures.platform ANSI) Fixtures.s_pty (Fixtures.stored ANSI256)
      = Some (r, out) /\
    profileNames_at (ColorProfile (newRenderer (Fixtures.platform ANSI) Fixtures.s_pty))
      = Some nC /\
    profileNames_at ANSI256 = Some nF /\
    renderer_session r
      = renderer_session (newRenderer (Fixtures.platform ANSI) Fixtures.s_pty) /\
    tier (ColorProfile r)
      = Nat.max (tier (ColorProfile (newRenderer (Fixtures.platform ANSI) Fixtures.s_pty)))
                (tier ANSI256) /\
    out = (if (tier (ColorProfile (newRenderer (Fixtures.platform ANSI) Fixtures.s_pty))
               <? tier ANSI256)%nat
           then [warning nC nF] else []).
Proof.
  split; [reflexivity|].
  apply (MakeRenderer_forces_minimum
           (Fixtures.platform ANSI) Fixtures.s_pty (Fixtures.stored ANSI256) ANSI256).
  reflexivity.
Defined.

(** C2, as stated, fails: a TrueColor client under a stored ANSI profile
    keeps TrueColor, where the minimum of the two tiers is ANSI, and no
    line is written although the client's tier is the higher one. *)
Lemma MakeRenderer_not_min :
  ~ Spec.negotiates_min (Fixtures.platform TrueColor) Fixtures.s_pty
      (Fixtures.stored ANSI) ANSI.
Proof.
  intros (r & out & H & Ht & _).
  vm_compute in H. injection H as <- <-.
  vm_compute in Ht. discriminate.
Qed.

(** What [MakeRenderer] returns, by the profile found on the context. *)
Lemma MakeRenderer_cases (pf : Platform) (s : Session) (c : store) :
  (tier (ColorProfile (newRenderer pf s)) < tier (minColorProfile c) /\
   exists line,
     MakeRenderer pf s c
     = Some (SetColorProfile (newRenderer pf s) (minColorProfile c), [line])) \/
  (tier (minColorProfile c) <= tier (ColorProfile (newRenderer pf s)) /\
   MakeRenderer pf s c = Some (newRenderer pf s, [])).
Proof.
  unfold MakeRenderer. cbv zeta. rewrite profileValue_tier.
  destruct (profileNames_at_total (ColorProfile (newRenderer pf s))) as [nC HC].
  destruct (profileNames_at_total (minColorProfile c)) as [nF HF].
  rewrite HC, HF.
  destruct (tier (ColorProfile (newRenderer pf s)) <? tier (minColorProfile c))%nat eqn:Hlt.
  - left. apply Nat.ltb_lt in Hlt. split; [exact Hlt | eexists; reflexivity].
  - right. apply Nat.ltb_ge in Hlt. split; [exact Hlt | reflexivity].
Qed.

Lemma MakeRenderer_same_minimum (pf : Platform) (s : Session) (c c' : store) :
  minColorProfile c = minColorProfile c' -> MakeRenderer pf s c = MakeRenderer pf s c'.
Proof. intros H. unfold MakeRenderer. now rewrite H. Qed.

(** C7, as stated, fails: with nothing stored, the renderer of a TrueColor
    client is returned with TrueColor, not with Ascii. *)
Lemma MakeRenderer_default_is_not_lowest :
  ~ Spec.defaults_to_lowest (Fixtures.platform TrueColor) Fixtures.s_pty [].
Proof.
  intros H. destruct (H eq_refl) as (r & out & E & Hr).
  vm_compute in E. injection E as <- <-. discriminate Hr.
Qed.

(** C7, as amended. On a context that holds no profile under
    [minColorProfileKey] (nothing stored, or a value of another type),
    [MakeRenderer] does not panic.  The declared profile it looks up falls
    back to [Ascii]: the call behaves exactly as with [Ascii] stored, and
    unlike with any stored profile above the client's.  [Ascii] forces
    nothing, so the session's renderer is returned with the profile it
    detected, and nothing is written. *)
Theorem MakeRenderer_without_stored_profile
    (pf : Platform) (s : Session) (c : store) :
  asProfile (Value c minColorProfileKey) = None ->
  minColorProfile c = Ascii /\
  MakeRenderer pf s c = Some (newRenderer pf s, []) /\
  MakeRenderer pf s c
  = MakeRenderer pf s (SetValue minColorProfileKey (VProfile Ascii) c) /\
  (forall F,
     tier (ColorProfile (newRenderer pf s)) < tier F ->
     MakeRenderer pf s (SetValue minColorProfileKey (VProfile F) c)
     <> MakeRenderer pf s c).
Proof.
  intros H.
  assert (Ha : minColorProfile c = Ascii) by (unfold minColorProfile; now rewrite H).
  assert (Hr : MakeRenderer pf s c = Some (newRenderer pf s, [])).
  { destruct (MakeRenderer_cases pf s c) as [[Hlt _] | [_ E]]; [|exact E].
    rewrite Ha in Hlt. simpl in Hlt. lia. }
  split; [exact Ha|]. split; [exact Hr|]. split.
  - apply MakeRenderer_same_minimum. now rewrite Ha.
  - intros F HF. rewrite Hr.
    destruct (MakeRenderer_cases pf s (SetValue minColorProfileKey (VProfile F) c))
      as [[_ [line ->]] | [Hge _]].
    + discriminate.
    + change (minColorProfile (SetValue minColorProfileKey (VProfile F) c)) with F in Hge.
      lia.
Qed.

Lemma MakeRenderer_without_stored_profile_witness :
  asProfile (Value [] minColorProfileKey) = None /\
  minColorProfile [] = Ascii /\
  MakeRenderer (Fixtures.platform ANSI) Fixtures.s_nopty []
    = Some (newRenderer (Fixtures.platform ANSI) Fixtures.s_nopty, []) /\
  MakeRenderer (Fixtures.platform ANSI) Fixtures.s_nopty (Fixtures.stored TrueColor)
    <> MakeRenderer (Fixtures.platform ANSI) Fixtures.s_nopty [].
Proof.
  split; [reflexivity|].
  destruct (MakeRenderer_without_stored_profile (Fixtures.platform ANSI) Fixtures.s_nopty []
              eq_refl) as (Ha & Hr & _ & Hf).
  split; [exact Ha|]. split; [exact Hr|].
  apply (Hf TrueColor). simpl. lia.
Defined.

(** ** Traces *)

Section TraceFacts.

Variables f g h : event -> bool.

Lemma filter_snoc (tr : list event) (e : event) :
  filter f (tr ++ [e]) = filter f tr ++ (if f e then [e] else []).
Proof. rewrite filter_app. reflexivity. Qed.

Lemma occurs_snoc (tr : list event) (e : event) :
  occurs f (tr ++ [e]) = occurs f tr || f e.
Proof.
  unfold occurs. rewrite existsb_app. simpl. now rewrite orb_false_r.
Qed.

Lemma occurs_count (tr : list event) : occurs f tr = negb (Nat.eqb (count f tr) 0).
Proof.
  unfold occurs, count. induction tr as [|e tr IH]; simpl; [reflexivity|].
  destruct (f e); simpl; [reflexivity | exact IH].
Qed.

Hypothesis sub : forall e, f e = true -> h e = true.

Lemma filter_filter_sub (tr : list event) : filter f (filter h tr) = filter f tr.
Proof.
  induction tr as [|e tr IH]; simpl; [reflexivity|].
  destruct (h e) eqn:Hh; simpl.
  - now rewrite IH.
  - destruct (f e) eqn:Hf; [|exact IH].
    apply sub in Hf. congruence.
Qed.

Lemma count_filter_sub (tr : list event) : count f (filter h tr) = count f tr.
Proof. unfold count. now rewrite filter_filter_sub. Qed.

Lemma occurs_filter_sub (tr : list event) : occurs f (filter h tr) = occurs f tr.
Proof. now rewrite !occurs_count, count_filter_sub. Qed.

End TraceFacts.

Section OrderFacts.

Variables f g h : event -> bool.

Lemma after_some_snoc (seen : bool) (tr : list event) (e : event) :
  after_some f g seen (tr ++ [e])
  = after_some f g seen tr && (negb (g e) || seen || occurs f tr).
Proof.
  revert seen. induction tr as [|x tr IH]; intros seen; simpl.
  - now rewrite andb_true_r, orb_false_r.
  - rewrite IH. unfold occurs.
    destruct (g x), seen, (f x), (g e); simpl; rewrite ?orb_true_r, ?orb_false_r;
      reflexivity.
Qed.

Lemma preceded_snoc (tr : list event) (e : event) :
  preceded f g (tr ++ [e]) = preceded f g tr && (negb (g e) || occurs f tr).
Proof.
  unfold preceded. rewrite after_some_snoc. now rewrite orb_false_r.
Qed.

Lemma none_after_from_snoc (seen : bool) (tr : list event) (e : event) :
  none_after_from f g seen (tr ++ [e])
  = none_after_from f g seen tr && negb ((seen || occurs f tr) && g e).
Proof.
  revert seen. induction tr as [|x tr IH]; intros seen; simpl.
  - now rewrite andb_true_r, orb_false_r.
  - rewrite IH. unfold occurs.
    destruct seen, (g x), (f x), (g e); simpl; rewrite ?orb_true_r, ?orb_false_r;
      reflexivity.
Qed.

Lemma none_after_snoc (tr : list event) (e : event) :
  none_after f g (tr ++ [e]) = none_after f g tr && negb (occurs f tr && g e).
Proof. unfold none_after. now rewrite none_after_from_snoc. Qed.

(** [preceded] read on the positions of the trace. *)
Lemma preceded_split (tr : list event) :
  preceded f g tr = true <->
  forall t1 e t2, tr = t1 ++ e :: t2 -> g e = true -> occurs f t1 = true.
Proof.
  induction tr as [|x tr IH] using rev_ind.
  - split; [|reflexivity]. intros _ [|? ?] ? ? H; discriminate H.
  - rewrite preceded_snoc, andb_true_iff, IH. split.
    + intros [Hall Hx] t1 e t2 Heq Hg.
      destruct t2 as [|y t2] using rev_ind.
      * apply app_inj_tail in Heq as [-> ->].
        rewrite Hg in Hx. exact Hx.
      * clear IHt2. rewrite app_comm_cons, app_assoc in Heq.
        apply app_inj_tail in Heq as [-> _].
        now apply (Hall t1 e t2).
    + intros Hall. split.
      * intros t1 e t2 -> Hg. apply (Hall t1 e (t2 ++ [x])); [|exact Hg].
        now rewrite <- app_assoc.
      * destruct (g x) eqn:Hg; [|reflexivity]. simpl.
        now apply (Hall tr x []).
Qed.

(** [none_after] read on the positions of the trace. *)
Lemma none_after_split (tr : list event) :
  none_after f g tr = true <->
  forall t1 e t2, tr = t1 ++ e :: t2 -> g e = true -> occurs f t1 = false.
Proof.
  induction tr as [|x tr IH] using rev_ind.
  - split; [|reflexivity]. intros _ [|? ?] ? ? H; discriminate H.
  - rewrite none_after_snoc, andb_true_iff, IH. split.
    + intros [Hall Hx] t1 e t2 Heq Hg.
      destruct t2 as [|y t2] using rev_ind.
      * apply app_inj_tail in Heq as [-> ->].
        rewrite Hg, andb_true_r in Hx. now apply negb_true_iff in Hx.
      * clear IHt2. rewrite app_comm_cons, app_assoc in Heq.
        apply app_inj_tail in Heq as [-> _].
        now apply (Hall t1 e t2).
    + intros Hall. split.
      * intros t1 e t2 -> Hg. apply (Hall t1 e (t2 ++ [x])); [|exact Hg].
        now rewrite <- app_assoc.
      * destruct (g x) eqn:Hg; [|now rewrite andb_false_r].
        now rewrite (Hall tr x [] eq_refl Hg).
Qed.

Hypothesis sub : forall e, g e = true -> h e = true.

Lemma after_some_filter (seen seen' : bool) (tr : list event) :
  (seen = true -> seen' = true) ->
  after_some f g seen (filter h tr) = true ->
  after_some f g seen' tr = true.
Proof.
  revert seen seen'. induction tr as [|x tr IH]; intros seen seen' Hs; simpl;
    [reflexivity|].
  destruct (h x) eqn:Hh; simpl.
  - rewrite !andb_true_iff. intros [H1 H2]. split.
    + destruct (g x); [|reflexivity]. simpl in *. now apply Hs.
    + apply (IH (seen || f x) (seen' || f x)); [|exact H2].
      destruct (f x); [now rewrite !orb_true_r|].
      now rewrite !orb_false_r.
  - intros H. destruct (g x) eqn:Hg; [apply sub in Hg; congruence|]. simpl.
    apply (IH seen (seen' || f x)); [|exact H].
    intros E. rewrite (Hs E). reflexivity.
Qed.

Lemma preceded_filter (tr : list event) :
  preceded f g (filter h tr) = true -> preceded f g tr = true.
Proof. apply after_some_filter. auto. Qed.

End OrderFacts.

Section OrderFacts2.

Variables f g h : event -> bool.
Hypothesis subf : forall e, f e = true -> h e = true.
Hypothesis subg : forall e, g e = true -> h e = true.

Lemma none_after_from_filter (seen : bool) (tr : list event) :
  none_after_from f g seen (filter h tr) = none_after_from f g seen tr.
Proof.
  revert seen. induction tr as [|x tr IH]; intros seen; simpl; [reflexivity|].
  destruct (h x) eqn:Hh; simpl.
  - now rewrite IH.
  - destruct (f x) eqn:Hf; [apply subf in Hf; congruence|].
    destruct (g x) eqn:Hg; [apply subg in Hg; congruence|].
    now rewrite IH, andb_false_r, orb_false_r.
Qed.

Lemma none_after_filter (tr : list event) :
  none_after f g (filter h tr) = none_after f g tr.
Proof. apply none_after_from_filter. Qed.

End OrderFacts2.

(** ** Steps preserve the invariant *)

Lemma received_snoc (tr : list event) (e : event) :
  received (tr ++ [e]) = received tr ++ match e with ERelayRecv w => [w] | _ => [] end.
Proof. unfold received. rewrite flat_map_app. simpl. now rewrite app_nil_r. Qed.

Lemma resizes_snoc (tr : list event) (e : event) :
  resizes (tr ++ [e]) = resizes tr ++ match e with EResize w => [w] | _ => [] end.
Proof. unfold resizes. rewrite flat_map_app. simpl. now rewrite app_nil_r. Qed.

Lemma Inv_init (cfg : Config) : Inv cfg init [].
Proof.
  constructor; simpl; try reflexivity; auto.
  exists []. split; reflexivity.
Qed.

Ltac snoc_simpl :=
  rewrite ?filter_snoc, ?occurs_snoc, ?received_snoc, ?resizes_snoc;
  simpl; rewrite ?app_nil_r, ?orb_false_r.

Ltac split_ands :=
  repeat match goal with
         | H : _ /\ _ |- _ => destruct H
         end.

Ltac by_config cfg :=
  simpl in *;
  unfold hist_complete, hist_ran, hist_started, hist_handler, ctx_done in *;
  simpl in *; split_ands;
  repeat match goal with
         | H : sess_pty (cfg_session cfg) = _ |- _ => rewrite H in *; clear H
         | H : cfg_bth cfg (cfg_session cfg) = _ |- _ => rewrite H in *; clear H
         | H : cfg_run cfg _ = _ |- _ => rewrite H in *; clear H
         end;
  simpl in *.

Lemma step_main_inv (cfg : Config) (st st' : State) (tr : list event) (e : event) :
  Inv cfg st tr -> step_main cfg st = Some (e, st') -> Inv cfg st' (tr ++ [e]).
Proof.
  intros [Hok Hm Hs Hc Hp Hsp Hr Hl Hf] H.
  unfold step_main in H.
  destruct st as [m r sto can par feed cl]; simpl in *.
  destruct m; inversion H; subst; clear H; constructor; simpl; snoc_simpl;
    try assumption; try reflexivity.
  all: try (rewrite Hm; reflexivity).
  all: try (destruct (sess_pty (cfg_session cfg)) eqn:Epty; simpl; rewrite ?Hm; auto; fail).
  all: try (destruct (cfg_bth cfg (cfg_session cfg)) eqn:Ebth; simpl; rewrite ?Hm; auto; fail).
  all: try (by_config cfg; rewrite ?Hm, <- ?app_assoc; simpl; auto; fail).
  all: try (destruct (cfg_run cfg p) eqn:Erun; by_config cfg;
            rewrite ?Hm, ?orb_true_r; simpl; auto; fail).
  all: try discriminate.
  - destruct r; try discriminate Hsp. destruct Hr as (ws & Hr & Hws).
    exists []. rewrite Hr, (Hws eq_refl). split; [reflexivity | auto].
Qed.

Lemma relay_pairs_snoc (ws : list Window) (w : Window) :
  relay_pairs (ws ++ [w]) = relay_pairs ws ++ [ERelayRecv w; ESend (toMsg w)].
Proof. unfold relay_pairs. rewrite flat_map_app. simpl. reflexivity. Qed.

Lemma step_relay_inv (cfg : Config) (c : choice) (st st' : State)
    (tr : list event) (e : event) :
  c = SelectDone \/ c = SelectRecv \/ c = StepRelay ->
  Inv cfg st tr -> step cfg c st = Some (e, st') -> Inv cfg st' (tr ++ [e]).
Proof.
  intros Hc [Hok Hm Hs Hca Hp Hsp Hr Hl Hf] H.
  destruct st as [m r sto can par feed cl]; simpl in *.
  destruct Hr as (ws & Hr & Hws).
  destruct Hc as [-> | [-> | ->]]; simpl in H.
  - unfold select_done in H; simpl in H.
    destruct r; try discriminate H.
    destruct (ctx_done _) eqn:Hd; inversion H; subst; clear H.
    constructor; simpl; snoc_simpl; try assumption; try reflexivity.
    + exists ws. rewrite Hr. simpl. rewrite app_nil_r. split; [reflexivity | discriminate].
    + intros _. exact Hd.
  - unfold select_recv in H; simpl in H.
    destruct r; try discriminate H.
    destruct feed as [|w q].
    + destruct cl; inversion H; subst; clear H.
      constructor; simpl; snoc_simpl; try assumption; try reflexivity; try discriminate.
      exists ws. rewrite Hr. simpl. rewrite app_nil_r. split; [reflexivity | discriminate].
    + inversion H; subst; clear H.
      constructor; simpl; snoc_simpl; try assumption; try reflexivity; try discriminate.
      * exists ws. rewrite Hr. simpl. rewrite app_nil_r. split; [reflexivity | discriminate].
      * intros E. rewrite <- (Hf E), <- app_assoc. reflexivity.
  - unfold step_relay in H; simpl in H.
    destruct r; try discriminate H; inversion H; subst; clear H;
      constructor; simpl; snoc_simpl; try assumption; try reflexivity;
      try discriminate.
    + exists ws. rewrite Hr. simpl. rewrite <- app_assoc. split; [reflexivity | discriminate].
    + exists (ws ++ [w]). rewrite Hr, relay_pairs_snoc, app_nil_r, <- app_assoc.
      split; [reflexivity | discriminate].
Qed.

Lemma step_env_inv (cfg : Config) (c : choice) (st st' : State)
    (tr : list event) (e : event) :
  (exists w, c = Resize w) \/ c = CloseFeed \/ c = CancelParent ->
  Inv cfg st tr -> step cfg c st = Some (e, st') -> Inv cfg st' (tr ++ [e]).
Proof.
  intros Hc [Hok Hm Hs Hca Hp Hsp Hr Hl Hf] H.
  destruct st as [m r sto can par feed cl]; simpl in *.
  destruct Hc as [[w ->] | [-> | ->]]; simpl in H.
  - destruct (sess_pty (cfg_session cfg) && negb cl) eqn:E; inversion H; subst; clear H.
    constructor; simpl; snoc_simpl; try assumption; try reflexivity.
    intros Hcl. rewrite app_assoc, (Hf Hcl). reflexivity.
  - destruct (sess_pty (cfg_session cfg) && negb cl) eqn:E; inversion H; subst; clear H.
    constructor; simpl; snoc_simpl; try assumption; try reflexivity.
    discriminate.
  - destruct par eqn:E; inversion H; subst; clear H.
    constructor; simpl; snoc_simpl; try assumption; try reflexivity.
    + now rewrite orb_true_r.
    + intros Hrl. unfold ctx_done. simpl. apply orb_true_r.
Qed.

Lemma step_inv (cfg : Config) (c : choice) (st st' : State)
    (tr : list event) (e : event) :
  Inv cfg st tr -> step cfg c st = Some (e, st') -> Inv cfg st' (tr ++ [e]).
Proof.
  destruct c.
  - apply step_main_inv.
  - apply step_relay_inv; auto.
  - apply step_relay_inv; auto.
  - apply step_relay_inv; auto.
  - apply step_env_inv; eauto.
  - apply step_env_inv; auto.
  - apply step_env_inv; auto.
Qed.

Lemma run_inv (cfg : Config) (sch : list choice) :
  forall st tr st' tr',
    Inv cfg st tr -> run cfg sch st tr = Some (st', tr') -> Inv cfg st' tr'.
Proof.
  induction sch as [|c sch IH]; intros st tr st' tr' HI H; simpl in H.
  - inversion H; subst. exact HI.
  - destruct (step cfg c st) as [[e st1]|] eqn:Hs; [|discriminate].
    apply (IH st1 (tr ++ [e])); [|exact H].
    now apply (step_inv cfg c st).
Qed.

Lemma exec_inv (cfg : Config) (sch : list choice) (st : State) (tr : list event) :
  exec cfg sch = Some (st, tr) -> Inv cfg st tr.
Proof. apply run_inv, Inv_init. Qed.

(** ** The handler's thread always runs to its end *)

Lemma run_app (cfg : Config) (s1 s2 : list choice) :
  forall st tr,
    run cfg (s1 ++ s2) st tr =
    match run cfg s1 st tr with
    | Some (st', tr') => run cfg s2 st' tr'
    | None => None
    end.
Proof.
  induction s1 as [|c s1 IH]; intros st tr; simpl; [reflexivity|].
  destruct (step cfg c st) as [[e st1]|]; [apply IH | reflexivity].
Qed.

Lemma step_main_left (cfg : Config) (st : State) (n : nat) :
  main_left cfg (st_main st) = S n ->
  exists e st', step_main cfg st = Some (e, st') /\ main_left cfg (st_main st') = n.
Proof.
  unfold step_main. destruct st as [m r sto can par feed cl]; simpl.
  destruct m; simpl; intros H; try discriminate H;
    (eexists; eexists; split; [reflexivity|]); simpl;
    repeat match goal with
           | |- context [sess_pty ?s] => destruct (sess_pty s)
           | |- context [cfg_bth ?c ?s] => destruct (cfg_bth c s)
           | |- context [cfg_run ?c ?p] => destruct (cfg_run c p)
           end; simpl in *; lia.
Qed.

Lemma main_runs_out (cfg : Config) (n : nat) :
  forall st tr,
    main_left cfg (st_main st) = n ->
    exists st' tr',
      run cfg (repeat StepMain n) st tr = Some (st', tr') /\ st_main st' = MReturned.
Proof.
  induction n as [|n IH]; intros st tr H; simpl.
  - exists st, tr. split; [reflexivity|].
    destruct (st_main st); simpl in H; try reflexivity;
      repeat match goal with
             | H : context [sess_pty ?s] |- _ => destruct (sess_pty s)
             | H : context [cfg_bth ?c ?s] |- _ => destruct (cfg_bth c s)
             | H : context [cfg_run ?c ?p] |- _ => destruct (cfg_run c p)
             end; discriminate H.
  - destruct (step_main_left cfg st n H) as (e & st1 & Hs & Hn).
    rewrite Hs. apply IH. exact Hn.
Qed.

(** From every reachable state the handler returns once it is given its
    remaining steps, whatever the other threads did before. *)
Lemma main_returns (cfg : Config) (sch : list choice) (st : State) (tr : list event) :
  exec cfg sch = Some (st, tr) ->
  exists st' tr',
    exec cfg (sch ++ repeat StepMain (main_left cfg (st_main st))) = Some (st', tr') /\
    st_main st' = MReturned.
Proof.
  intros H. unfold exec in *. rewrite run_app, H.
  now apply main_runs_out.
Qed.

(** ** What the trace shows of each thread *)

Ltac config_cases :=
  repeat match goal with
         | |- context [sess_pty ?s] => destruct (sess_pty s) eqn:?
         | |- context [cfg_bth ?c ?s] => destruct (cfg_bth c s) eqn:?
         | |- context [cfg_run ?c ?p] => destruct (cfg_run c p) eqn:?
         end.

Ltac main_cases pc :=
  destruct pc; simpl;
  unfold hist_complete, hist_ran, hist_started, hist_handler; simpl;
  config_cases; simpl.

(** At every program point the handler has made a prefix of the calls of
    its whole run. *)
Lemma main_hist_prefix (cfg : Config) (pc : mainpc) :
  main_ok cfg pc -> exists rest, main_hist cfg pc ++ rest = hist_complete cfg.
Proof.
  intros H. destruct pc; simpl in H; split_ands; simpl;
    unfold hist_complete, hist_ran, hist_started, hist_handler;
    repeat match goal with
           | H : sess_pty _ = _ |- _ => rewrite H; clear H
           | H : cfg_bth _ _ = _ |- _ => rewrite H; clear H
           | H : cfg_run _ _ = _ |- _ => rewrite H; clear H
           end;
    config_cases; simpl; eexists; try reflexivity.
  all: try (rewrite app_nil_r; reflexivity).
Qed.

(** Runs a schedule on a concrete configuration and keeps the result. *)
Ltac run_schedule :=
  eexists; eexists;
  match goal with
  | |- ?A /\ _ =>
      let H := fresh "Hexec" in
      assert (H : A) by (vm_compute; reflexivity); split; [exact H|]
  end.

Lemma main_view (cfg : Config) (sch : list choice) (st : State) (tr : list event) :
  exec cfg sch = Some (st, tr) -> filter is_main tr = main_hist cfg (st_main st).
Proof. intros H. apply (inv_main _ _ _ (exec_inv _ _ _ _ H)). Qed.

Ltac sub_main := let e := fresh "e" in intros e; destruct e; simpl; auto; discriminate.

Lemma count_main (cfg : Config) (sch : list choice) (st : State) (tr : list event)
    (f : event -> bool) :
  (forall e, f e = true -> is_main e = true) ->
  exec cfg sch = Some (st, tr) ->
  count f tr = count f (main_hist cfg (st_main st)).
Proof.
  intros Hsub H. rewrite <- (main_view _ _ _ _ H). symmetry.
  now apply count_filter_sub.
Qed.

Lemma occurs_main (cfg : Config) (sch : list choice) (st : State) (tr : list event)
    (f : event -> bool) :
  (forall e, f e = true -> is_main e = true) ->
  exec cfg sch = Some (st, tr) ->
  occurs f tr = occurs f (main_hist cfg (st_main st)).
Proof.
  intros Hsub H. rewrite <- (main_view _ _ _ _ H). symmetry.
  now apply occurs_filter_sub.
Qed.

Lemma preceded_main (cfg : Config) (sch : list choice) (st : State) (tr : list event)
    (f g : event -> bool) :
  (forall e, g e = true -> is_main e = true) ->
  exec cfg sch = Some (st, tr) ->
  preceded f g (main_hist cfg (st_main st)) = true ->
  preceded f g tr = true.
Proof.
  intros Hsub H Hp. rewrite <- (main_view _ _ _ _ H) in Hp.
  now apply (preceded_filter f g is_main Hsub).
Qed.

(** ** Teardown after [Run] *)

Example teardown_after_error :
  exec (Fixtures.cfg_run_with (Some "boom"))
       [StepMain; StepMain; StepMain; StepMain; StepMain; StepMain;
        StepMain; StepMain; StepMain; StepMain; StepMain]
  = Some ({| st_main := MReturned; st_relay := RSelect;
             st_store := Fixtures.stored ANSI256;
             st_cancelled := true; st_parent_done := false;
             st_feed := []; st_feed_closed := false |},
          [ESetValue minColorProfileKey (VProfile ANSI256); EPty;
           EHandler (Some Fixtures.prog0); EWithCancel; EGo; ERunCall;
           ERunReturn (Some "boom"); ELogError "app exit with error" "boom";
           EKill; ECancel; ENext]).
Proof. vm_compute. reflexivity. Qed.

(** C4. In every execution [p.Kill()] and [cancel()] are called at most
    once each, and each call comes after [p.Run()] has returned.  Once
    [p.Run()] has returned, with an error or without, the handler runs on to
    its end without waiting for anything, and at its end, in every execution
    in which [p.Run()] was called, both have been called exactly once. *)
Theorem kill_and_cancel_once_after_run
    (cfg : Config) (sch : list choice) (st : State) (tr : list event) :
  exec cfg sch = Some (st, tr) ->
  count is_Kill tr <= 1 /\
  count is_Cancel tr <= 1 /\
  preceded is_RunReturn is_Kill tr = true /\
  preceded is_RunReturn is_Cancel tr = true /\
  (exists st' tr',
     exec cfg (sch ++ repeat StepMain (main_left cfg (st_main st))) = Some (st', tr') /\
     st_main st' = MReturned) /\
  (occurs is_RunCall tr = true -> st_main st = MReturned ->
   count is_Kill tr = 1 /\ count is_Cancel tr = 1).
Proof.
  intros H.
  rewrite (count_main cfg sch st tr is_Kill) by (sub_main || exact H).
  rewrite (count_main cfg sch st tr is_Cancel) by (sub_main || exact H).
  rewrite (occurs_main cfg sch st tr is_RunCall) by (sub_main || exact H).
  repeat split.
  - generalize (st_main st). intros pc. main_cases pc; unfold count; simpl; lia.
  - generalize (st_main st). intros pc. main_cases pc; unfold count; simpl; lia.
  - apply (preceded_main cfg sch st); [sub_main | exact H |].
    generalize (st_main st). intros pc. main_cases pc; reflexivity.
  - apply (preceded_main cfg sch st); [sub_main | exact H |].
    generalize (st_main st). intros pc. main_cases pc; reflexivity.
  - exact (main_returns _ _ _ _ H).
  - rewrite H1 in *. revert H0. simpl.
    unfold hist_complete, hist_ran, hist_started, hist_handler.
    config_cases; simpl; intros; (reflexivity || discriminate).
  - rewrite H1 in *. revert H0. simpl.
    unfold hist_complete, hist_ran, hist_started, hist_handler.
    config_cases; simpl; intros; (reflexivity || discriminate).
Qed.

(** ** Sessions that never start a program *)

Example no_pty_run :
  exec Fixtures.cfg_nopty [StepMain; StepMain; CancelParent; StepMain]
  = Some ({| st_main := MReturned; st_relay := RNone;
             st_store := Fixtures.stored Ascii;
             st_cancelled := false; st_parent_done := true;
             st_feed := []; st_feed_closed := false |},
          [ESetValue minColorProfileKey (VProfile Ascii); EPty; EParentDone;
           EFatalln "no active terminal, skipping"]).
Proof. reflexivity. Qed.

(** C1, as amended. For a session without a pty the program handler is
    never called, so no program is built, no relay is spawned and nothing is
    run; the handler reports "no active terminal, skipping" through
    [wish.Fatalln] and returns, and the next handler is not called. *)
Theorem no_pty_is_fatal
    (cfg : Config) (sch : list choice) (st : State) (tr : list event) :
  sess_pty (cfg_session cfg) = false ->
  exec cfg sch = Some (st, tr) ->
  occurs is_Handler tr = false /\
  occurs is_Go tr = false /\
  occurs is_RunCall tr = false /\
  st_relay st = RNone /\
  count is_Next tr = 0 /\
  (exists st' tr',
     exec cfg (sch ++ repeat StepMain (main_left cfg (st_main st))) = Some (st', tr') /\
     st_main st' = MReturned) /\
  (st_main st = MReturned ->
   filter is_main tr
   = [set_profile cfg; EPty; EFatalln "no active terminal, skipping"]).
Proof.
  intros Hpty H.
  pose proof (exec_inv _ _ _ _ H) as [Hok Hm _ _ _ Hsp _ _ _].
  rewrite (occurs_main cfg sch st tr is_Handler) by (sub_main || exact H).
  rewrite (occurs_main cfg sch st tr is_Go) by (sub_main || exact H).
  rewrite (occurs_main cfg sch st tr is_RunCall) by (sub_main || exact H).
  rewrite (count_main cfg sch st tr is_Next) by (sub_main || exact H).
  rewrite Hm.
  assert (Hrel : st_relay st = RNone).
  { destruct (st_relay st); try reflexivity; simpl in Hsp;
      destruct (st_main st); simpl in *; split_ands;
      rewrite ?Hpty in *; simpl in *; congruence. }
  repeat split; try exact Hrel; try exact (main_returns _ _ _ _ H).
  all: destruct (st_main st); simpl in *; split_ands;
    unfold hist_complete; rewrite ?Hpty; try reflexivity; try congruence.
Qed.

Lemma no_pty_is_fatal_witness :
  sess_pty (cfg_session Fixtures.cfg_nopty) = false /\
  exists st tr,
    exec Fixtures.cfg_nopty [StepMain; StepMain; CancelParent; StepMain] = Some (st, tr) /\
    st_main st = MReturned /\
    occurs is_Handler tr = false /\
    count is_Next tr = 0.
Proof.
  split; [reflexivity|].
  run_schedule. split; [reflexivity|].
  destruct (no_pty_is_fatal Fixtures.cfg_nopty _ _ _ eq_refl Hexec)
    as (Hh & _ & _ & _ & Hn & _).
  split; [exact Hh | exact Hn].
Defined.

(** C1, as stated, fails: a session without a pty has returned after three
    steps without having called the next handler. *)
Lemma no_pty_does_not_fall_through :
  ~ Spec.no_pty_falls_through Fixtures.cfg_nopty.
Proof.
  intros H.
  destruct (H eq_refl [StepMain; StepMain; StepMain] _ _ eq_refl eq_refl) as [_ Hn].
  discriminate Hn.
Qed.

Example decline_run :
  exec Fixtures.cfg_decline [StepMain; Resize Fixtures.w1; StepMain; StepMain; StepMain]
  = Some ({| st_main := MReturned; st_relay := RNone;
             st_store := Fixtures.stored Ascii;
             st_cancelled := false; st_parent_done := false;
             st_feed := [Fixtures.w1]; st_feed_closed := false |},
          [ESetValue minColorProfileKey (VProfile Ascii); EResize Fixtures.w1; EPty;
           EHandler None; ENext]).
Proof. reflexivity. Qed.

(** C3. When the program handler returns nil for a session with a pty, no
    relay is spawned, [Run] and [Kill] are never called, and the next
    handler is called once: never more than once, exactly once when the
    handler has returned, and the handler always returns.  The declarative
    shape gives nil whenever the [Handler] returns a nil model. *)
Theorem declined_session_falls_through
    (cfg : Config) (sch : list choice) (st : State) (tr : list event) :
  sess_pty (cfg_session cfg) = true ->
  cfg_bth cfg (cfg_session cfg) = None ->
  exec cfg sch = Some (st, tr) ->
  (forall pf (bth : Handler) s,
     fst (bth s) = None -> newDefaultProgramHandler pf bth s = None) /\
  occurs is_Go tr = false /\
  st_relay st = RNone /\
  filter is_relay tr = [] /\
  occurs is_RunCall tr = false /\
  occurs is_Kill tr = false /\
  count is_Next tr <= 1 /\
  (exists st' tr',
     exec cfg (sch ++ repeat StepMain (main_left cfg (st_main st))) = Some (st', tr') /\
     st_main st' = MReturned) /\
  (st_main st = MReturned ->
   count is_Next tr = 1 /\
   filter is_main tr = [set_profile cfg; EPty; EHandler None; ENext]).
Proof.
  intros Hpty Hbth H.
  pose proof (exec_inv _ _ _ _ H) as [Hok Hm _ _ _ Hsp Hr _ _].
  rewrite (occurs_main cfg sch st tr is_Go) by (sub_main || exact H).
  rewrite (occurs_main cfg sch st tr is_RunCall) by (sub_main || exact H).
  rewrite (occurs_main cfg sch st tr is_Kill) by (sub_main || exact H).
  rewrite (count_main cfg sch st tr is_Next) by (sub_main || exact H).
  rewrite Hm.
  assert (Hrel : st_relay st = RNone).
  { destruct (st_relay st); try reflexivity; simpl in Hsp;
      destruct (st_main st); simpl in *; split_ands;
      rewrite ?Hpty, ?Hbth in *; simpl in *; congruence. }
  split.
  { intros pf bth s Hnil. unfold newDefaultProgramHandler.
    destruct (bth s) as [m opts]. simpl in Hnil. now rewrite Hnil. }
  split; [|split; [exact Hrel|split]].
  2:{ destruct Hr as (ws & Hr & Hws). rewrite Hr, (Hws Hrel), Hrel. reflexivity. }
  all: repeat split; try exact (main_returns _ _ _ _ H).
  all: destruct (st_main st); simpl in *; split_ands;
    unfold hist_complete, hist_handler, count; rewrite ?Hpty, ?Hbth; simpl;
    try reflexivity; try congruence; try lia.
Qed.

Lemma declined_session_falls_through_witness :
  sess_pty (cfg_session Fixtures.cfg_decline) = true /\
  cfg_bth Fixtures.cfg_decline (cfg_session Fixtures.cfg_decline) = None /\
  exists st tr,
    exec Fixtures.cfg_decline
         [StepMain; Resize Fixtures.w1; StepMain; StepMain; StepMain] = Some (st, tr) /\
    st_main st = MReturned /\
    st_relay st = RNone /\
    count is_Next tr = 1.
Proof.
  split; [reflexivity|]. split; [reflexivity|].
  run_schedule. split; [reflexivity|].
  destruct (declined_session_falls_through Fixtures.cfg_decline _ _ _
              eq_refl eq_refl Hexec)
    as (_ & _ & Hrel & _ & _ & _ & _ & _ & Hret).
  split; [exact Hrel | exact (proj1 (Hret eq_refl))].
Defined.

(** ** A program that exits with an error *)

(** C6. When [p.Run()] returns an error, the handler's calls are at every
    moment a prefix of: the start-up, [p.Run()] returning the error,
    [log.Error] with that error, [p.Kill()], [cancel()], the next handler.
    The handler always reaches its end, which is an ordinary return, and
    there it has made exactly these calls. *)
Theorem run_error_is_logged
    (cfg : Config) (p : Program) (err : error)
    (sch : list choice) (st : State) (tr : list event) :
  sess_pty (cfg_session cfg) = true ->
  cfg_bth cfg (cfg_session cfg) = Some p ->
  cfg_run cfg p = Some err ->
  exec cfg sch = Some (st, tr) ->
  (exists rest,
     filter is_main tr ++ rest
     = [set_profile cfg; EPty; EHandler (Some p); EWithCancel; EGo; ERunCall;
        ERunReturn (Some err); ELogError "app exit with error" err;
        EKill; ECancel; ENext]) /\
  (exists st' tr',
     exec cfg (sch ++ repeat StepMain (main_left cfg (st_main st))) = Some (st', tr') /\
     st_main st' = MReturned) /\
  (st_main st = MReturned ->
   filter is_main tr
   = [set_profile cfg; EPty; EHandler (Some p); EWithCancel; EGo; ERunCall;
      ERunReturn (Some err); ELogError "app exit with error" err;
      EKill; ECancel; ENext]).
Proof.
  intros Hpty Hbth Hrun H.
  pose proof (exec_inv _ _ _ _ H) as [Hok Hm _ _ _ _ _ _ _].
  assert (Hc : hist_complete cfg
               = [set_profile cfg; EPty; EHandler (Some p); EWithCancel; EGo; ERunCall;
                  ERunReturn (Some err); ELogError "app exit with error" err;
                  EKill; ECancel; ENext]).
  { unfold hist_complete, hist_ran, hist_started, hist_handler.
    rewrite Hpty, Hbth, Hrun. reflexivity. }
  rewrite <- Hc, Hm. repeat split.
  - now apply main_hist_prefix.
  - exact (main_returns _ _ _ _ H).
  - intros ->. reflexivity.
Qed.

Lemma run_error_is_logged_witness :
  sess_pty (cfg_session (Fixtures.cfg_run_with (Some "boom"))) = true /\
  cfg_bth (Fixtures.cfg_run_with (Some "boom"))
          (cfg_session (Fixtures.cfg_run_with (Some "boom"))) = Some Fixtures.prog0 /\
  cfg_run (Fixtures.cfg_run_with (Some "boom")) Fixtures.prog0 = Some "boom" /\
  exists st tr,
    exec (Fixtures.cfg_run_with (Some "boom"))
         [StepMain; StepMain; StepMain; StepMain; StepMain; StepMain;
          StepMain; StepMain; StepMain; StepMain; StepMain] = Some (st, tr) /\
    st_main st = MReturned /\
    filter is_main tr
    = [ESetValue minColorProfileKey (VProfile ANSI256); EPty;
       EHandler (Some Fixtures.prog0); EWithCancel; EGo; ERunCall;
       ERunReturn (Some "boom"); ELogError "app exit with error" "boom";
       EKill; ECancel; ENext].
Proof.
  split; [reflexivity|]. split; [reflexivity|]. split; [reflexivity|].
  run_schedule. split; [reflexivity|].
  destruct (run_error_is_logged (Fixtures.cfg_run_with (Some "boom")) Fixtures.prog0 "boom"
              _ _ _ eq_refl eq_refl eq_refl Hexec)
    as (_ & _ & Hret).
  exact (Hret eq_refl).
Defined.

Lemma kill_and_cancel_once_after_run_witness :
  exists st tr,
    exec (Fixtures.cfg_run_with None)
         [StepMain; StepMain; StepMain; StepMain; StepMain; StepMain;
          CancelParent; SelectDone; StepRelay;
          StepMain; StepMain; StepMain; StepMain] = Some (st, tr) /\
    occurs is_RunCall tr = true /\
    st_main st = MReturned /\
    preceded is_RunReturn is_Kill tr = true /\
    preceded is_RunReturn is_Cancel tr = true /\
    count is_Kill tr = 1 /\
    count is_Cancel tr = 1.
Proof.
  run_schedule. split; [reflexivity|]. split; [reflexivity|].
  destruct (kill_and_cancel_once_after_run (Fixtures.cfg_run_with None) _ _ _ Hexec)
    as (_ & _ & Hk & Hc & _ & Hret).
  split; [exact Hk|]. split; [exact Hc|]. exact (Hret eq_refl eq_refl).
Defined.

(** ** The stored profile *)

(** C9. [SetValue] is the handler's first call: it comes before the
    program handler is called and before [p.Run()] is entered, it is made at
    most once in any execution, and from then on the context holds the
    declared profile under [minColorProfileKey], until the end. *)
Theorem profile_stored_once_before_handler
    (cfg : Config) (sch : list choice) (st : State) (tr : list event) :
  exec cfg sch = Some (st, tr) ->
  count is_SetValue tr <= 1 /\
  preceded is_SetValue is_Handler tr = true /\
  preceded is_SetValue is_RunCall tr = true /\
  (exists rest, filter is_main tr ++ rest = hist_complete cfg) /\
  (exists rest, hist_complete cfg = set_profile cfg :: rest /\
                occurs is_SetValue rest = false) /\
  st_store st
  = (if occurs is_SetValue tr
     then SetValue minColorProfileKey (VProfile (cfg_profile cfg)) []
     else []) /\
  (if occurs is_SetValue tr
   then Value (st_store st) minColorProfileKey = Some (VProfile (cfg_profile cfg))
   else st_main st = MSetValue).
Proof.
  intros H.
  pose proof (exec_inv _ _ _ _ H) as [Hok Hm Hs _ _ _ _ _ _].
  rewrite (count_main cfg sch st tr is_SetValue) by (sub_main || exact H).
  rewrite (occurs_main cfg sch st tr is_SetValue) by (sub_main || exact H).
  rewrite Hm, Hs.
  repeat split.
  - generalize (st_main st). intros pc. main_cases pc; unfold count; simpl; lia.
  - apply (preceded_main cfg sch st); [sub_main | exact H |].
    generalize (st_main st). intros pc. main_cases pc; reflexivity.
  - apply (preceded_main cfg sch st); [sub_main | exact H |].
    generalize (st_main st). intros pc. main_cases pc; reflexivity.
  - now apply main_hist_prefix.
  - unfold hist_complete, hist_ran, hist_started, hist_handler.
    config_cases; simpl; eexists; split; reflexivity.
  - generalize (st_main st). intros pc. main_cases pc; reflexivity.
  - generalize (st_main st). intros pc. main_cases pc; reflexivity.
Qed.

Lemma profile_stored_once_before_handler_witness :
  exists st tr,
    exec (Fixtures.cfg_run_with None)
         [StepMain; StepMain; StepMain; StepMain; StepMain; StepMain; StepMain]
      = Some (st, tr) /\
    count is_SetValue tr <= 1 /\
    preceded is_SetValue is_Handler tr = true /\
    preceded is_SetValue is_RunCall tr = true /\
    Value (st_store st) minColorProfileKey = Some (VProfile ANSI256).
Proof.
  run_schedule.
  destruct (profile_stored_once_before_handler (Fixtures.cfg_run_with None) _ _ _ Hexec)
    as (Hc & Hh & Hr & _ & _ & _ & Hv).
  split; [exact Hc|]. split; [exact Hh|]. split; [exact Hr|]. exact Hv.
Defined.

(** ** The relay *)

Section RelayView.

Variables f g : event -> bool.

Lemma count_app_none (l t : list event) :
  Forall (fun e => f e = false) l -> count f (l ++ t) = count f t.
Proof.
  unfold count. induction 1 as [|e l He _ IH]; simpl; [reflexivity|].
  now rewrite He.
Qed.

Lemma after_some_app_none (seen : bool) (l t : list event) :
  Forall (fun e => g e = false) l -> Forall (fun e => f e = false) l ->
  after_some f g seen (l ++ t) = after_some f g seen t.
Proof.
  intros Hg. revert seen. induction Hg as [|e l He _ IH]; intros seen Hf; simpl;
    [reflexivity|].
  inversion Hf as [|? ? Hfe Hf']; subst.
  rewrite He, Hfe, orb_false_r. simpl. now apply IH.
Qed.

Lemma none_after_app_none (l t : list event) :
  Forall (fun e => f e = false) l ->
  none_after_from f g false (l ++ t) = none_after_from f g false t.
Proof.
  induction 1 as [|e l He _ IH]; simpl; [reflexivity|].
  now rewrite He.
Qed.

Lemma relay_pairs_none (ws : list Window) :
  (forall w, f (ERelayRecv w) = false) -> (forall m, f (ESend m) = false) ->
  Forall (fun e => f e = false) (relay_pairs ws).
Proof.
  intros Hr Hs. induction ws as [|w ws IH]; simpl; [constructor|].
  constructor; [apply Hr|]. constructor; [apply Hs | exact IH].
Qed.

End RelayView.

Lemma sends_relay (tr : list event) : sends (filter is_relay tr) = sends tr.
Proof.
  unfold sends. induction tr as [|e tr IH]; simpl; [reflexivity|].
  destruct e; simpl; rewrite ?IH; reflexivity.
Qed.

Lemma received_relay (tr : list event) : received (filter is_relay tr) = received tr.
Proof.
  unfold received. induction tr as [|e tr IH]; simpl; [reflexivity|].
  destruct e; simpl; rewrite ?IH; reflexivity.
Qed.

Lemma sends_relay_pairs (ws : list Window) : sends (relay_pairs ws) = map toMsg ws.
Proof. induction ws as [|w ws IH]; simpl; [reflexivity | now rewrite <- IH]. Qed.

Lemma received_relay_pairs (ws : list Window) : received (relay_pairs ws) = ws.
Proof. induction ws as [|w ws IH]; simpl; [reflexivity | now rewrite IH]. Qed.

Lemma occurs_orb (f g : event -> bool) (tr : list event) :
  occurs (fun e => f e || g e) tr = occurs f tr || occurs g tr.
Proof.
  unfold occurs. induction tr as [|e tr IH]; simpl; [reflexivity|].
  rewrite IH. destruct (f e), (g e), (existsb f tr), (existsb g tr); reflexivity.
Qed.

Ltac sub_relay := let e := fresh "e" in intros e; destruct e; simpl; auto; discriminate.

Lemma relay_view (cfg : Config) (sch : list choice) (st : State) (tr : list event) :
  exec cfg sch = Some (st, tr) ->
  exists ws, filter is_relay tr = relay_pairs ws ++ relay_tail (st_relay st).
Proof.
  intros H. destruct (inv_relay _ _ _ (exec_inv _ _ _ _ H)) as (ws & Hr & _).
  now exists ws.
Qed.

(** The case [<-ctx.Done()] is taken only in a state whose [ctx] is done. *)
Lemma step_done_needs_cancel (cfg : Config) (c : choice) (st st' : State) (e : event) :
  step cfg c st = Some (e, st') -> is_RelayDone e = true -> ctx_done st = true.
Proof.
  destruct c; simpl.
  - unfold step_main. destruct (st_main st); intros H; inversion H; subst; discriminate.
  - unfold select_done. destruct (st_relay st); try discriminate.
    destruct (ctx_done st); [reflexivity | discriminate].
  - unfold select_recv. destruct (st_relay st); try discriminate.
    destruct (st_feed st); [destruct (st_feed_closed st)|];
      intros H; inversion H; subst; discriminate.
  - unfold step_relay. destruct (st_relay st); intros H; inversion H; subst; discriminate.
  - destruct (_ && _); intros H; inversion H; subst; discriminate.
  - destruct (_ && _); intros H; inversion H; subst; discriminate.
  - destruct (st_parent_done st); intros H; inversion H; subst; discriminate.
Qed.

Lemma run_done_after_cancel (cfg : Config) (sch : list choice) :
  forall st tr st' tr',
    Inv cfg st tr ->
    preceded is_cancellation is_RelayDone tr = true ->
    run cfg sch st tr = Some (st', tr') ->
    preceded is_cancellation is_RelayDone tr' = true.
Proof.
  induction sch as [|c sch IH]; intros st tr st' tr' HI Hp H; simpl in H.
  - inversion H; subst. exact Hp.
  - destruct (step cfg c st) as [[e st1]|] eqn:Hs; [|discriminate].
    apply (IH st1 (tr ++ [e]) st' tr'); [now apply (step_inv cfg c st) | | exact H].
    rewrite preceded_snoc, Hp. simpl.
    destruct (is_RelayDone e) eqn:He; [|reflexivity]. simpl.
    pose proof (step_done_needs_cancel _ _ _ _ _ Hs He) as Hd.
    unfold ctx_done in Hd.
    rewrite (inv_cancelled _ _ _ HI), (inv_parent _ _ _ HI) in Hd.
    unfold is_cancellation. now rewrite occurs_orb.
Qed.

Lemma exec_done_after_cancel (cfg : Config) (sch : list choice)
    (st : State) (tr : list event) :
  exec cfg sch = Some (st, tr) ->
  preceded is_cancellation is_RelayDone tr = true.
Proof.
  intros H. apply (run_done_after_cancel cfg sch init [] st tr);
    [apply Inv_init | reflexivity | exact H].
Qed.

Lemma count_relay (cfg : Config) (sch : list choice) (st : State) (tr : list event)
    (f : event -> bool) :
  (forall e, f e = true -> is_relay e = true) ->
  (forall w, f (ERelayRecv w) = false) -> (forall m, f (ESend m) = false) ->
  exec cfg sch = Some (st, tr) ->
  count f tr = count f (relay_tail (st_relay st)).
Proof.
  intros Hsub Hr Hs H. destruct (relay_view _ _ _ _ H) as [ws Hv].
  rewrite <- (count_filter_sub f is_relay Hsub), Hv.
  apply count_app_none. now apply relay_pairs_none.
Qed.

Example relay_quits_on_cancel :
  exec (Fixtures.cfg_run_with None)
       [StepMain; StepMain; StepMain; StepMain; StepMain; StepMain;
        Resize Fixtures.w1; SelectRecv; StepRelay; CloseFeed; SelectRecv; StepRelay;
        CancelParent; SelectDone; StepRelay]
  = Some ({| st_main := MInRun Fixtures.prog0; st_relay := RReturned;
             st_store := Fixtures.stored ANSI256;
             st_cancelled := false; st_parent_done := true;
             st_feed := []; st_feed_closed := true |},
          [ESetValue minColorProfileKey (VProfile ANSI256); EPty;
           EHandler (Some Fixtures.prog0); EWithCancel; EGo; ERunCall;
           EResize Fixtures.w1; ERelayRecv Fixtures.w1; ESend (toMsg Fixtures.w1);
           EFeedClosed; ERelayRecv zeroWindow; ESend (toMsg zeroWindow);
           EParentDone; ERelayDone; EQuit]).
Proof. vm_compute. reflexivity. Qed.

(** C8. The relay calls [p.Quit()] at most once, only after its [select]
    took the case [<-ctx.Done()], and that case is taken only after [ctx]
    was cancelled (by [cancel()] or through the session's context).  A relay
    that has returned has called [p.Quit()] exactly once.  While [ctx] is not
    done the relay has neither left its loop nor called [p.Quit()], whether
    the feed is closed or not: at its [select] with the feed closed it can
    still receive, and goes on to send.  At its [select] with [ctx] done,
    the cancellation case is ready and leads to [p.Quit()] and the return. *)
Theorem relay_stops_only_on_cancellation
    (cfg : Config) (sch : list choice) (st : State) (tr : list event) :
  exec cfg sch = Some (st, tr) ->
  count is_Quit tr <= 1 /\
  preceded is_RelayDone is_Quit tr = true /\
  preceded is_cancellation is_RelayDone tr = true /\
  (st_relay st = RReturned -> count is_Quit tr = 1 /\ ctx_done st = true) /\
  (ctx_done st = false ->
   relay_left (st_relay st) = false /\ count is_Quit tr = 0 /\
   occurs is_RelayDone tr = false) /\
  (st_relay st = RSelect -> st_feed_closed st = true ->
   exists w st', step cfg SelectRecv st = Some (ERelayRecv w, st') /\
                 st_relay st' = RSend w) /\
  (st_relay st = RSelect -> ctx_done st = true ->
   exists st',
     exec cfg (sch ++ [SelectDone; StepRelay]) = Some (st', tr ++ [ERelayDone; EQuit]) /\
     st_relay st' = RReturned).
Proof.
  intros H.
  pose proof (exec_inv _ _ _ _ H) as HI.
  pose proof (inv_left _ _ _ HI) as Hl.
  assert (Hq : count is_Quit tr = count is_Quit (relay_tail (st_relay st))).
  { apply (count_relay cfg sch); auto. sub_relay. }
  assert (Hd : count is_RelayDone tr = count is_RelayDone (relay_tail (st_relay st))).
  { apply (count_relay cfg sch); auto. sub_relay. }
  rewrite Hq.
  repeat split.
  - destruct (st_relay st); unfold count; simpl; lia.
  - destruct (relay_view _ _ _ _ H) as [ws Hv].
    apply (preceded_filter is_RelayDone is_Quit is_relay); [sub_relay|].
    rewrite Hv. unfold preceded.
    rewrite after_some_app_none by (apply relay_pairs_none; reflexivity).
    destruct (st_relay st); reflexivity.
  - exact (exec_done_after_cancel _ _ _ _ H).
  - rewrite H0. reflexivity.
  - apply Hl. rewrite H0. reflexivity.
  - destruct (relay_left (st_relay st)); [|reflexivity].
    rewrite Hl in H0 by reflexivity. discriminate.
  - destruct (st_relay st); try reflexivity; simpl in Hl;
      rewrite Hl in H0 by reflexivity; discriminate.
  - rewrite occurs_count, Hd.
    destruct (st_relay st); try reflexivity; simpl in Hl;
      rewrite Hl in H0 by reflexivity; discriminate.
  - intros Hsel Hcl. simpl. unfold select_recv. rewrite Hsel.
    destruct (st_feed st) as [|w q].
    + rewrite Hcl. eexists. eexists. split; reflexivity.
    + eexists. eexists. split; reflexivity.
  - intros Hsel Hdone. unfold exec in *. rewrite run_app, H. simpl.
    unfold select_done. rewrite Hsel, Hdone. simpl.
    eexists. split; [rewrite <- app_assoc; reflexivity | reflexivity].
Qed.

Lemma relay_stops_only_on_cancellation_witness :
  exists st tr,
    exec (Fixtures.cfg_run_with None)
         [StepMain; StepMain; StepMain; StepMain; StepMain; StepMain;
          Resize Fixtures.w1; SelectRecv; StepRelay; CloseFeed; SelectRecv; StepRelay;
          CancelParent; SelectDone; StepRelay] = Some (st, tr) /\
    st_relay st = RReturned /\
    preceded is_RelayDone is_Quit tr = true /\
    preceded is_cancellation is_RelayDone tr = true /\
    count is_Quit tr = 1 /\
    ctx_done st = true.
Proof.
  run_schedule. split; [reflexivity|].
  destruct (relay_stops_only_on_cancellation (Fixtures.cfg_run_with None) _ _ _ Hexec)
    as (_ & Hq & Hd & Hret & _).
  split; [exact Hq|]. split; [exact Hd|]. exact (Hret eq_refl).
Defined.

(** ** Forwarding of resize events *)

Example send_after_run_returned :
  exec (Fixtures.cfg_run_with None)
       [StepMain; StepMain; StepMain; StepMain; StepMain; StepMain;
        Resize Fixtures.w1; StepMain; SelectRecv; StepRelay]
  = Some ({| st_main := MKill Fixtures.prog0; st_relay := RSelect;
             st_store := Fixtures.stored ANSI256;
             st_cancelled := false; st_parent_done := false;
             st_feed := []; st_feed_closed := false |},
          [ESetValue minColorProfileKey (VProfile ANSI256); EPty;
           EHandler (Some Fixtures.prog0); EWithCancel; EGo; ERunCall;
           EResize Fixtures.w1; ERunReturn None;
           ERelayRecv Fixtures.w1; ESend (toMsg Fixtures.w1)]).
Proof. vm_compute. reflexivity. Qed.

(** C5, as stated, fails: a resize event put on the feed while the program
    runs is taken by the relay, and passed to [p.Send], after [p.Run()] has
    returned and before the handler reaches [cancel()]. *)
Lemma send_can_follow_run_return :
  ~ Spec.no_send_after_return (Fixtures.cfg_run_with None).
Proof.
  intros H.
  assert (E : exec (Fixtures.cfg_run_with None)
                [StepMain; StepMain; StepMain; StepMain; StepMain; StepMain;
                 Resize Fixtures.w1; StepMain; SelectRecv; StepRelay]
              = Some ({| st_main := MKill Fixtures.prog0; st_relay := RSelect;
                         st_store := Fixtures.stored ANSI256;
                         st_cancelled := false; st_parent_done := false;
                         st_feed := []; st_feed_closed := false |},
                      [ESetValue minColorProfileKey (VProfile ANSI256); EPty;
                       EHandler (Some Fixtures.prog0); EWithCancel; EGo; ERunCall;
                       EResize Fixtures.w1; ERunReturn None;
                       ERelayRecv Fixtures.w1; ESend (toMsg Fixtures.w1)]))
    by (vm_compute; reflexivity).
  specialize (H _ _ _ E). vm_compute in H. discriminate H.
Qed.

(** C5, as amended. While the feed is open, the values the relay has
    received are the resize events put on the feed, in order, up to those
    still buffered; every value received has been passed to [p.Send] as a
    [WindowSizeMsg] of the same width and height, in the order received,
    except the one the relay is about to send; and no message is sent once
    the relay has taken the cancellation case.  Nothing ties the sends to
    the return of [p.Run()]. *)
Theorem relay_forwards_in_order
    (cfg : Config) (sch : list choice) (st : State) (tr : list event) :
  exec cfg sch = Some (st, tr) ->
  st_feed_closed st = false ->
  received tr ++ st_feed st = resizes tr /\
  sends tr ++ match st_relay st with RSend w => [toMsg w] | _ => [] end
  = map toMsg (received tr) /\
  List.length (sends tr) <= List.length (resizes tr) /\
  none_after is_RelayDone is_Send tr = true.
Proof.
  intros H Hopen.
  pose proof (exec_inv _ _ _ _ H) as HI.
  pose proof (inv_feed _ _ _ HI Hopen) as Hf.
  destruct (relay_view _ _ _ _ H) as [ws Hv].
  assert (Hs : sends tr ++ match st_relay st with RSend w => [toMsg w] | _ => [] end
               = map toMsg (received tr)).
  { rewrite <- (sends_relay tr), <- (received_relay tr), Hv.
    unfold sends, received. rewrite !flat_map_app.
    fold (sends (relay_pairs ws)). fold (received (relay_pairs ws)).
    rewrite sends_relay_pairs, received_relay_pairs, map_app.
    destruct (st_relay st); simpl; rewrite ?app_nil_r; reflexivity. }
  repeat split.
  - exact Hf.
  - exact Hs.
  - rewrite <- Hf, length_app.
    apply (f_equal (@List.length _)) in Hs.
    rewrite length_app, length_map in Hs. lia.
  - rewrite <- (none_after_filter is_RelayDone is_Send is_relay) by sub_relay.
    rewrite Hv. unfold none_after.
    rewrite none_after_app_none by (apply relay_pairs_none; reflexivity).
    destruct (st_relay st); reflexivity.
Qed.

Lemma relay_forwards_in_order_witness :
  exists st tr,
    exec (Fixtures.cfg_run_with None)
         [StepMain; StepMain; Resize Fixtures.w1; StepMain; StepMain; StepMain;
          SelectRecv; StepMain; StepRelay; Resize Fixtures.w2; SelectRecv; StepRelay;
          Resize Fixtures.w1; StepMain; StepMain; StepMain; SelectDone]
      = Some (st, tr) /\
    st_feed_closed st = false /\
    resizes tr = [Fixtures.w1; Fixtures.w2; Fixtures.w1] /\
    st_feed st = [Fixtures.w1] /\
    sends tr = [toMsg Fixtures.w1; toMsg Fixtures.w2] /\
    none_after is_RelayDone is_Send tr = true.
Proof.
  run_schedule. split; [reflexivity|].
  destruct (relay_forwards_in_order (Fixtures.cfg_run_with None) _ _ _ Hexec eq_refl)
    as (_ & _ & _ & Hn).
  split; [reflexivity|]. split; [reflexivity|]. split; [reflexivity|]. exact Hn.
Defined.

(** * Further properties *)

(** ** Getenv on environments of name/value pairs *)

Section EnvFacts.

Import GoString.
Local Open Scope string_scope.

Lemma entry_prefix (k v : string) : Env.entry k v = (k ++ "=") ++ v.
Proof. unfold Env.entry. now rewrite append_assoc. Qed.

Lemma length_key (k : string) : String.length (k ++ "=") = String.length k + 1.
Proof. rewrite length_append. reflexivity. Qed.

Lemma prefix_cons (c d : ascii) (p s : string) :
  prefix (String c p) (String d s) = if ascii_dec c d then prefix p s else false.
Proof. reflexivity. Qed.

Lemma eqb_not_eq (c : ascii) : Ascii.eqb c "=" = false -> c <> "="%char.
Proof. intros H ->. now rewrite Ascii.eqb_refl in H. Qed.

(** An entry is matched by a key exactly when it carries that name, as long
    as neither contains the separator. *)
Lemma HasPrefix_entry (n v k : string) :
  Env.has_eq n = false -> Env.has_eq k = false ->
  HasPrefix (Env.entry n v) (k ++ "=") = String.eqb n k.
Proof.
  unfold HasPrefix, Env.entry. revert n.
  induction k as [|c k IH]; intros n Hn Hk.
  - destruct n as [|d n]; cbn [append String.eqb].
    + rewrite prefix_cons.
      destruct (ascii_dec "=" "=") as [_|N]; [now destruct v | now elim N].
    + simpl in Hn. destruct (Ascii.eqb d "=") eqn:Hd; [discriminate|].
      apply eqb_not_eq in Hd. rewrite prefix_cons.
      destruct (ascii_dec "=" d) as [E|_]; [now elim Hd | reflexivity].
  - simpl in Hk. destruct (Ascii.eqb c "=") eqn:Hc; [discriminate|].
    apply eqb_not_eq in Hc.
    destruct n as [|d n]; cbn [append String.eqb]; rewrite prefix_cons.
    + destruct (ascii_dec c "=") as [E|_]; [now elim Hc | reflexivity].
    + simpl in Hn. destruct (Ascii.eqb d "=") eqn:Hd; [discriminate|].
      destruct (ascii_dec c d) as [->|N].
      * rewrite Ascii.eqb_refl. now apply IH.
      * destruct (Ascii.eqb d c) eqn:E; [|reflexivity].
        apply Ascii.eqb_eq in E. now elim N.
Qed.

End EnvFacts.

(** X1. Whatever the environment holds, and whatever bytes the name and
    the value contain, putting the entry [k=v] in front makes [Getenv k]
    return [v]: the first match shadows all later ones. *)
Theorem Getenv_front_entry (e : sshEnviron) (k v : string) :
  Getenv (Env.entry k v :: e) k = Some v.
Proof.
  simpl. rewrite entry_prefix, HasPrefix_append, <- length_key.
  apply slice_from_append.
Qed.

(** X2. On an environment built from name/value pairs whose names do not
    contain [=], and for a key without [=], [Getenv] is the lookup of the
    first pair with that name, and the empty string when there is none: an
    entry whose name only starts with the key is not matched. *)
Theorem Getenv_environ_of (l : list (string * string)) (k : string) :
  Env.has_eq k = false ->
  Forall (fun nv => Env.has_eq (fst nv) = false) l ->
  Getenv (Env.environ_of l) k = Some (Env.lookup l k).
Proof.
  intros Hk Hl. induction Hl as [|[n v] l Hn _ IH]; [reflexivity|].
  simpl in *. rewrite (HasPrefix_entry n v k Hn Hk).
  destruct (String.eqb n k) eqn:E; [|exact IH].
  apply String.eqb_eq in E. subst n.
  rewrite entry_prefix, <- length_key. apply slice_from_append.
Qed.

Lemma Getenv_environ_of_witness :
  Env.has_eq "TERM" = false /\
  Forall (fun nv => Env.has_eq (fst nv) = false)
         [("TERMINAL", "x"); ("TERM", "xterm"); ("TERM", "vt100")] /\
  Getenv (Env.environ_of [("TERMINAL", "x"); ("TERM", "xterm"); ("TERM", "vt100")]) "TERM"
  = Some "xterm".
Proof.
  split; [reflexivity|].
  split; [repeat constructor|].
  apply (Getenv_environ_of [("TERMINAL", "x"); ("TERM", "xterm"); ("TERM", "vt100")] "TERM").
  - reflexivity.
  - repeat constructor.
Defined.

(** X3. [Getenv] on two environments put together answers from the first
    one when it has an entry with the prefix [k=], and from the second one
    otherwise. *)
Theorem Getenv_app (e1 e2 : sshEnviron) (k : string) :
  Getenv (e1 ++ e2) k
  = if existsb (fun v => HasPrefix v (k ++ "=")) e1 then Getenv e1 k else Getenv e2 k.
Proof.
  induction e1 as [|v e1 IH]; [reflexivity|].
  simpl. destruct (HasPrefix v (k ++ "=")); [reflexivity | exact IH].
Qed.

(** ** MakeRenderer in a session *)

(** The profile on the context of a session handled by the middleware. *)
Lemma store_profile (cfg : Config) (sch : list choice) (st : State) (tr : list event) :
  exec cfg sch = Some (st, tr) ->
  minColorProfile (st_store st)
  = (if occurs is_SetValue tr then cfg_profile cfg else Ascii).
Proof.
  intros H.
  pose proof (exec_inv _ _ _ _ H) as [_ Hm Hs _ _ _ _ _ _].
  rewrite (occurs_main cfg sch st tr is_SetValue) by (sub_main || exact H).
  rewrite Hs. generalize (st_main st). intros pc. main_cases pc; reflexivity.
Qed.

Lemma handler_after_store (cfg : Config) (sch : list choice) (st : State) (tr : list event) :
  exec cfg sch = Some (st, tr) ->
  occurs is_Handler tr = true -> occurs is_SetValue tr = true.
Proof.
  intros H.
  rewrite (occurs_main cfg sch st tr is_SetValue) by (sub_main || exact H).
  rewrite (occurs_main cfg sch st tr is_Handler) by (sub_main || exact H).
  generalize (st_main st). intros pc. main_cases pc; intros E; (reflexivity || discriminate E).
Qed.

(** X5. From the moment the program handler is called, and so for
    everything the program does, [MakeRenderer] on the session finds the
    profile declared to the middleware: the renderer it returns has the
    higher of the detected and the declared tier. *)
Theorem handler_sees_declared_profile
    (cfg : Config) (pf : Platform) (sch : list choice) (st : State) (tr : list event) :
  exec cfg sch = Some (st, tr) ->
  occurs is_Handler tr = true ->
  minColorProfile (st_store st) = cfg_profile cfg /\
  exists r out,
    MakeRenderer pf (cfg_session cfg) (st_store st) = Some (r, out) /\
    tier (ColorProfile r)
    = Nat.max (tier (ColorProfile (newRenderer pf (cfg_session cfg))))
              (tier (cfg_profile cfg)).
Proof.
  intros H Hh.
  pose proof (store_profile _ _ _ _ H) as Hp.
  rewrite (handler_after_store _ _ _ _ H Hh) in Hp.
  split; [exact Hp|].
  destruct (MakeRenderer_cases pf (cfg_session cfg) (st_store st))
    as [[Hlt [line ->]] | [Hge ->]]; rewrite Hp in *.
  - eexists. eexists. split; [reflexivity|]. simpl. lia.
  - eexists. eexists. split; [reflexivity|]. lia.
Qed.

Lemma handler_sees_declared_profile_witness :
  exists st tr,
    exec (Fixtures.cfg_run_with None)
         [StepMain; StepMain; StepMain; StepMain; StepMain; StepMain] = Some (st, tr) /\
    occurs is_Handler tr = true /\
    minColorProfile (st_store st) = ANSI256 /\
    exists r out,
      MakeRenderer (Fixtures.platform Ascii) Fixtures.s_pty (st_store st) = Some (r, out) /\
      tier (ColorProfile r) = 2.
Proof.
  run_schedule. split; [reflexivity|].
  exact (handler_sees_declared_profile (Fixtures.cfg_run_with None)
           (Fixtures.platform Ascii) _ _ _ Hexec eq_refl).
Defined.

(** X6. Under [Middleware], which declares [termenv.Ascii], [MakeRenderer]
    returns the session's fresh renderer unchanged and writes nothing, at
    every moment of the session and whatever the handler and the client
    are. *)
Theorem Middleware_never_forces
    (pf : Platform) (bth : Handler) (s : Session) (run : Program -> option error)
    (sch : list choice) (st : State) (tr : list event) :
  exec (Middleware pf bth s run) sch = Some (st, tr) ->
  MakeRenderer pf s (st_store st) = Some (newRenderer pf s, []).
Proof.
  intros H.
  pose proof (store_profile _ _ _ _ H) as Hp. simpl in Hp.
  assert (Ha : minColorProfile (st_store st) = Ascii)
    by (rewrite Hp; now destruct (occurs is_SetValue tr)).
  destruct (MakeRenderer_cases pf s (st_store st)) as [[Hlt _] | [_ E]]; [|exact E].
  rewrite Ha in Hlt. simpl in Hlt. lia.
Qed.

Lemma Middleware_never_forces_witness :
  exists st tr,
    exec (Middleware (Fixtures.platform TrueColor) (fun _ => (Some 7, [OtherOption 3]))
            Fixtures.s_pty (fun _ => None))
         [StepMain; StepMain; StepMain; StepMain; StepMain; StepMain] = Some (st, tr) /\
    MakeRenderer (Fixtures.platform TrueColor) Fixtures.s_pty (st_store st)
    = Some (newRenderer (Fixtures.platform TrueColor) Fixtures.s_pty, []).
Proof.
  run_schedule.
  exact (Middleware_never_forces _ _ _ _ _ _ _ Hexec).
Defined.

(** ** The handler's calls, on every path *)

(** The handler's thread seen through the invariant: a statement on the
    calls recorded at each reachable program point holds of the trace. *)
Ltac on_main_hist H :=
  let pc := fresh "pc" in
  let Hok := fresh "Hok" in
  pose proof (inv_main_ok _ _ _ (exec_inv _ _ _ _ H)) as Hok;
  revert Hok;
  match type of H with
  | _ = Some (?st, _) => generalize (st_main st)
  end;
  intros pc Hok;
  destruct pc; simpl in Hok; split_ands; simpl;
  unfold hist_complete, hist_ran, hist_started, hist_handler; simpl;
  repeat match goal with
         | E : sess_pty _ = _ |- _ => rewrite E in *; clear E
         | E : cfg_bth _ _ = _ |- _ => rewrite E in *; clear E
         | E : cfg_run _ _ = _ |- _ => rewrite E in *; clear E
         end;
  config_cases; simpl.

Lemma none_after_main (cfg : Config) (sch : list choice) (st : State) (tr : list event)
    (f g : event -> bool) :
  (forall e, f e = true -> is_main e = true) ->
  (forall e, g e = true -> is_main e = true) ->
  exec cfg sch = Some (st, tr) ->
  none_after f g tr = none_after f g (main_hist cfg (st_main st)).
Proof.
  intros Hf Hg H. rewrite <- (main_view _ _ _ _ H). symmetry.
  now apply none_after_filter.
Qed.

(** X7. In every execution the next handler is called at most once, and
    it is the handler's last call.  When the handler has returned, the next
    handler has been called once if the session has a pty, with or without
    a program, and not at all if it has none. *)
Theorem next_handler_once_and_last
    (cfg : Config) (sch : list choice) (st : State) (tr : list event) :
  exec cfg sch = Some (st, tr) ->
  count is_Next tr <= 1 /\
  none_after is_Next is_main tr = true /\
  (st_main st = MReturned ->
   count is_Next tr = if sess_pty (cfg_session cfg) then 1 else 0).
Proof.
  intros H.
  rewrite (count_main cfg sch st tr is_Next) by (sub_main || exact H).
  rewrite (none_after_main cfg sch st tr is_Next is_main) by (sub_main || auto || exact H).
  repeat split.
  - generalize (st_main st). intros pc. main_cases pc; unfold count; simpl; lia.
  - generalize (st_main st). intros pc. main_cases pc; reflexivity.
  - intros ->. simpl. unfold hist_complete, hist_ran, hist_started, hist_handler.
    config_cases; reflexivity.
Qed.

Lemma next_handler_once_and_last_witness :
  exists st tr,
    exec (Fixtures.cfg_run_with None)
         [StepMain; StepMain; StepMain; StepMain; StepMain; StepMain;
          StepMain; StepMain; StepMain; StepMain] = Some (st, tr) /\
    st_main st = MReturned /\
    none_after is_Next is_main tr = true /\
    count is_Next tr = 1.
Proof.
  run_schedule. split; [reflexivity|].
  destruct (next_handler_once_and_last (Fixtures.cfg_run_with None) _ _ _ Hexec)
    as (_ & Hl & Hret).
  split; [exact Hl | exact (Hret eq_refl)].
Defined.

(** X8. The program handler is called at most once per session and only
    for a session with a pty; [p.Run()] is entered at most once, and only on
    the program the handler returned.  When the handler has returned, the
    program handler was called exactly if the session has a pty, and
    [p.Run()] exactly if in addition the program handler returned a
    program. *)
Theorem one_program_per_session
    (cfg : Config) (sch : list choice) (st : State) (tr : list event) :
  exec cfg sch = Some (st, tr) ->
  count is_Handler tr <= 1 /\
  count is_RunCall tr <= 1 /\
  count is_RunReturn tr <= 1 /\
  preceded is_Handler is_RunCall tr = true /\
  (if occurs is_Handler tr then sess_pty (cfg_session cfg) = true else True) /\
  (if occurs is_RunCall tr
   then is_some (cfg_bth cfg (cfg_session cfg)) = true
   else True) /\
  (st_main st = MReturned ->
   occurs is_Handler tr = sess_pty (cfg_session cfg) /\
   occurs is_RunCall tr
   = sess_pty (cfg_session cfg) && is_some (cfg_bth cfg (cfg_session cfg))).
Proof.
  intros H.
  rewrite (count_main cfg sch st tr is_Handler) by (sub_main || exact H).
  rewrite (count_main cfg sch st tr is_RunCall) by (sub_main || exact H).
  rewrite (count_main cfg sch st tr is_RunReturn) by (sub_main || exact H).
  rewrite (occurs_main cfg sch st tr is_Handler) by (sub_main || exact H).
  rewrite (occurs_main cfg sch st tr is_RunCall) by (sub_main || exact H).
  repeat split.
  - generalize (st_main st). intros pc. main_cases pc; unfold count; simpl; lia.
  - generalize (st_main st). intros pc. main_cases pc; unfold count; simpl; lia.
  - generalize (st_main st). intros pc. main_cases pc; unfold count; simpl; lia.
  - apply (preceded_main cfg sch st); [sub_main | exact H |].
    generalize (st_main st). intros pc. main_cases pc; reflexivity.
  - on_main_hist H; auto.
  - on_main_hist H; auto.
  - rewrite H0. simpl. unfold hist_complete, hist_ran, hist_started, hist_handler.
    config_cases; reflexivity.
  - rewrite H0. simpl. unfold hist_complete, hist_ran, hist_started, hist_handler.
    config_cases; reflexivity.
Qed.

Lemma one_program_per_session_witness :
  exists st tr,
    exec Fixtures.cfg_decline [StepMain; StepMain; StepMain; StepMain] = Some (st, tr) /\
    st_main st = MReturned /\
    count is_Handler tr <= 1 /\
    occurs is_Handler tr = true /\
    occurs is_RunCall tr = false.
Proof.
  run_schedule. split; [reflexivity|].
  destruct (one_program_per_session Fixtures.cfg_decline _ _ _ Hexec)
    as (Hc & _ & _ & _ & _ & _ & Hret).
  split; [exact Hc|]. exact (Hret eq_refl).
Defined.

(** ** Ordering across the two threads *)

(** A general way to order events of different threads: if every step that
    emits an event of kind [g] starts in a state whose trace holds an event
    of kind [f], then in every execution [g] comes only after [f]. *)
Lemma run_preceded (cfg : Config) (f g : event -> bool) :
  (forall c st tr e st',
     Inv cfg st tr -> step cfg c st = Some (e, st') -> g e = true ->
     occurs f tr = true) ->
  forall sch st tr st' tr',
    Inv cfg st tr ->
    preceded f g tr = true ->
    run cfg sch st tr = Some (st', tr') ->
    preceded f g tr' = true.
Proof.
  intros Hstep sch.
  induction sch as [|c sch IH]; intros st tr st' tr' HI Hp H; simpl in H.
  - inversion H; subst. exact Hp.
  - destruct (step cfg c st) as [[e st1]|] eqn:Hs; [|discriminate].
    apply (IH st1 (tr ++ [e]) st' tr'); [now apply (step_inv cfg c st) | | exact H].
    rewrite preceded_snoc, Hp. simpl.
    destruct (g e) eqn:He; [|reflexivity]. simpl.
    exact (Hstep c st tr e st1 HI Hs He).
Qed.

(** Only a spawned relay emits relay events. *)
Lemma step_relay_event (cfg : Config) (c : choice) (st st' : State) (e : event) :
  step cfg c st = Some (e, st') -> is_relay e = true ->
  relay_running (st_relay st) = true.
Proof.
  destruct c; simpl.
  - unfold step_main. destruct (st_main st); intros H; inversion H; subst; discriminate.
  - unfold select_done. destruct (st_relay st); try discriminate. reflexivity.
  - unfold select_recv. destruct (st_relay st); try discriminate. reflexivity.
  - unfold step_relay. destruct (st_relay st); try discriminate; reflexivity.
  - destruct (_ && _); intros H; inversion H; subst; discriminate.
  - destruct (_ && _); intros H; inversion H; subst; discriminate.
  - destruct (st_parent_done st); intros H; inversion H; subst; discriminate.
Qed.

Lemma spawned_after_go (cfg : Config) (st : State) (tr : list event) :
  Inv cfg st tr -> relay_running (st_relay st) = occurs is_Go tr.
Proof.
  intros [Hok Hm _ _ _ Hsp _ _ _].
  rewrite Hsp, <- (occurs_filter_sub is_Go is_main) by sub_main.
  rewrite Hm. revert Hok. generalize (st_main st). intros pc Hok.
  destruct pc; simpl in Hok; split_ands; simpl;
    unfold hist_complete, hist_ran, hist_started, hist_handler; simpl;
    config_cases; reflexivity.
Qed.

(** X9. The [go] statement runs at most once per session, after the
    program handler returned and before [p.Run()] is entered; the relay
    exists exactly from then on, and every receive, send, cancellation case
    and [p.Quit()] of the relay comes after it. *)
Theorem relay_spawned_once_before_run
    (cfg : Config) (sch : list choice) (st : State) (tr : list event) :
  exec cfg sch = Some (st, tr) ->
  count is_Go tr <= 1 /\
  preceded is_Handler is_Go tr = true /\
  preceded is_Go is_RunCall tr = true /\
  preceded is_Go is_relay tr = true /\
  relay_running (st_relay st) = occurs is_Go tr.
Proof.
  intros H.
  rewrite (count_main cfg sch st tr is_Go) by (sub_main || exact H).
  repeat split.
  - generalize (st_main st). intros pc. main_cases pc; unfold count; simpl; lia.
  - apply (preceded_main cfg sch st); [sub_main | exact H |].
    generalize (st_main st). intros pc. main_cases pc; reflexivity.
  - apply (preceded_main cfg sch st); [sub_main | exact H |].
    generalize (st_main st). intros pc. main_cases pc; reflexivity.
  - apply (run_preceded cfg is_Go is_relay) with (sch := sch) (st := init) (tr := []) (st' := st);
      [| apply Inv_init | reflexivity | exact H].
    intros c s0 t0 e s1 HI Hs He.
    rewrite <- (spawned_after_go cfg s0 t0 HI).
    exact (step_relay_event _ _ _ _ _ Hs He).
  - apply (spawned_after_go cfg). exact (exec_inv _ _ _ _ H).
Qed.

Lemma relay_spawned_once_before_run_witness :
  exists st tr,
    exec (Fixtures.cfg_run_with None)
         [StepMain; StepMain; Resize Fixtures.w1; StepMain; StepMain; StepMain;
          SelectRecv; StepRelay; StepMain] = Some (st, tr) /\
    preceded is_Go is_relay tr = true /\
    preceded is_Go is_RunCall tr = true /\
    relay_running (st_relay st) = true.
Proof.
  run_schedule.
  destruct (relay_spawned_once_before_run (Fixtures.cfg_run_with None) _ _ _ Hexec)
    as (_ & _ & Hr & Hg & Hs).
  split; [exact Hg|]. split; [exact Hr | exact Hs].
Defined.

(** X10. In a session whose relay was spawned, the handler's teardown is
    ordered: [p.Kill()] comes before [cancel()], and the next handler is
    called only after both, so it always runs with the relay's context
    already cancelled. *)
Theorem teardown_order
    (cfg : Config) (sch : list choice) (st : State) (tr : list event) :
  exec cfg sch = Some (st, tr) ->
  occurs is_Go tr = true ->
  preceded is_Kill is_Cancel tr = true /\
  preceded is_Cancel is_Next tr = true /\
  preceded is_Kill is_Next tr = true /\
  st_cancelled st = occurs is_Cancel tr /\
  (if occurs is_Next tr then ctx_done st = true else True).
Proof.
  intros H.
  pose proof (inv_cancelled _ _ _ (exec_inv _ _ _ _ H)) as Hc.
  unfold ctx_done. rewrite Hc.
  rewrite (occurs_main cfg sch st tr is_Go) by (sub_main || exact H).
  rewrite (occurs_main cfg sch st tr is_Next) by (sub_main || exact H).
  rewrite (occurs_main cfg sch st tr is_Cancel) by (sub_main || exact H).
  intros Hgo. repeat split.
  1-3: apply (preceded_main cfg sch st); [sub_main | exact H |];
    revert Hgo; generalize (st_main st); intros pc; main_cases pc;
    intros E; (reflexivity || discriminate E).
  revert Hgo; generalize (st_main st); intros pc; main_cases pc;
    intros E; (reflexivity || discriminate E || exact I).
Qed.

Lemma teardown_order_witness :
  exists st tr,
    exec (Fixtures.cfg_run_with (Some "boom"))
         [StepMain; StepMain; StepMain; StepMain; StepMain; StepMain;
          StepMain; StepMain; StepMain; StepMain; StepMain] = Some (st, tr) /\
    occurs is_Go tr = true /\
    preceded is_Kill is_Cancel tr = true /\
    preceded is_Cancel is_Next tr = true /\
    ctx_done st = true.
Proof.
  run_schedule. split; [reflexivity|].
  destruct (teardown_order (Fixtures.cfg_run_with (Some "boom")) _ _ _ Hexec eq_refl)
    as (Hk & Hc & _ & _ & Hd).
  split; [exact Hk|]. split; [exact Hc | exact Hd].
Defined.

(** X11. When [p.Run()] returns nil, [log.Error] is never called: the
    handler's calls are at every moment a prefix of the start-up, the
    return of [p.Run()], [p.Kill()], [cancel()], the next handler, and are
    exactly these when the handler has returned. *)
Theorem clean_exit_is_not_logged
    (cfg : Config) (p : Program)
    (sch : list choice) (st : State) (tr : list event) :
  sess_pty (cfg_session cfg) = true ->
  cfg_bth cfg (cfg_session cfg) = Some p ->
  cfg_run cfg p = None ->
  exec cfg sch = Some (st, tr) ->
  occurs is_Log tr = false /\
  (exists rest,
     filter is_main tr ++ rest
     = [set_profile cfg; EPty; EHandler (Some p); EWithCancel; EGo; ERunCall;
        ERunReturn None; EKill; ECancel; ENext]) /\
  (st_main st = MReturned ->
   filter is_main tr
   = [set_profile cfg; EPty; EHandler (Some p); EWithCancel; EGo; ERunCall;
      ERunReturn None; EKill; ECancel; ENext]).
Proof.
  intros Hpty Hbth Hrun H.
  pose proof (exec_inv _ _ _ _ H) as [Hok Hm _ _ _ _ _ _ _].
  assert (Hc : hist_complete cfg
               = [set_profile cfg; EPty; EHandler (Some p); EWithCancel; EGo; ERunCall;
                  ERunReturn None; EKill; ECancel; ENext]).
  { unfold hist_complete, hist_ran, hist_started, hist_handler.
    rewrite Hpty, Hbth, Hrun. reflexivity. }
  destruct (main_hist_prefix cfg (st_main st) Hok) as [rest Hrest].
  repeat split.
  - rewrite <- (occurs_filter_sub is_Log is_main) by sub_main.
    rewrite Hm.
    assert (Hall : occurs is_Log (main_hist cfg (st_main st) ++ rest) = false)
      by (rewrite Hrest, Hc; reflexivity).
    unfold occurs in *. rewrite existsb_app in Hall.
    now apply orb_false_iff in Hall.
  - exists rest. now rewrite Hm, Hrest.
  - intros E. rewrite Hm, E. exact Hc.
Qed.

Lemma clean_exit_is_not_logged_witness :
  sess_pty (cfg_session (Fixtures.cfg_run_with None)) = true /\
  cfg_bth (Fixtures.cfg_run_with None) (cfg_session (Fixtures.cfg_run_with None))
  = Some Fixtures.prog0 /\
  cfg_run (Fixtures.cfg_run_with None) Fixtures.prog0 = None /\
  exists st tr,
    exec (Fixtures.cfg_run_with None)
         [StepMain; StepMain; StepMain; StepMain; StepMain; StepMain;
          StepMain; StepMain; StepMain; StepMain] = Some (st, tr) /\
    st_main st = MReturned /\
    occurs is_Log tr = false.
Proof.
  split; [reflexivity|]. split; [reflexivity|]. split; [reflexivity|].
  run_schedule. split; [reflexivity|].
  destruct (clean_exit_is_not_logged (Fixtures.cfg_run_with None) Fixtures.prog0
              _ _ _ eq_refl eq_refl eq_refl Hexec)
    as (Hl & _).
  exact Hl.
Defined.

Section PrecededFacts.

Variables f f' g h : event -> bool.

Lemma after_some_ext (seen : bool) (tr : list event) :
  (forall e, In e tr -> f e = f' e) ->
  after_some f g seen tr = after_some f' g seen tr.
Proof.
  revert seen. induction tr as [|x tr IH]; intros seen Hext; simpl; [reflexivity|].
  rewrite (Hext x (or_introl eq_refl)).
  rewrite IH; [reflexivity|]. intros e He. apply Hext. now right.
Qed.

Lemma preceded_ext (tr : list event) :
  (forall e, In e tr -> f e = f' e) -> preceded f g tr = preceded f' g tr.
Proof. apply after_some_ext. Qed.

Lemma preceded_trans (tr : list event) :
  preceded f g tr = true -> preceded g h tr = true -> preceded f h tr = true.
Proof.
  rewrite !preceded_split. intros Hfg Hgh t1 e t2 Heq He.
  pose proof (Hgh t1 e t2 Heq He) as Hg.
  unfold occurs in Hg. apply existsb_exists in Hg as (x & Hin & Hx).
  apply in_split in Hin as (a & b & ->).
  unfold occurs. rewrite existsb_app.
  rewrite <- app_assoc in Heq. simpl in Heq.
  pose proof (Hfg a x (b ++ e :: t2) Heq Hx) as Hf.
  unfold occurs in Hf. now rewrite Hf.
Qed.

End PrecededFacts.

Lemma occurs_false_all (f : event -> bool) (tr : list event) :
  occurs f tr = false -> forall e, In e tr -> f e = false.
Proof.
  intros H e He. destruct (f e) eqn:E; [|reflexivity].
  assert (occurs f tr = true) by (apply existsb_exists; now exists e).
  congruence.
Qed.

Lemma quit_after_done (cfg : Config) (sch : list choice) (st : State) (tr : list event) :
  exec cfg sch = Some (st, tr) -> preceded is_RelayDone is_Quit tr = true.
Proof.
  intros H. destruct (relay_view _ _ _ _ H) as [ws Hv].
  apply (preceded_filter is_RelayDone is_Quit is_relay); [sub_relay|].
  rewrite Hv. unfold preceded.
  rewrite after_some_app_none by (apply relay_pairs_none; reflexivity).
  destruct (st_relay st); reflexivity.
Qed.

(** X12. In an execution in which the session's own context is not
    cancelled, the relay leaves its loop only after the handler's
    [cancel()]: its [p.Quit()] then always comes after [p.Run()] has returned
    and after [p.Kill()], on a program that was already stopped. *)
Theorem quit_follows_kill_unless_session_ends
    (cfg : Config) (sch : list choice) (st : State) (tr : list event) :
  exec cfg sch = Some (st, tr) ->
  occurs is_ParentDone tr = false ->
  preceded is_Cancel is_RelayDone tr = true /\
  preceded is_Cancel is_Quit tr = true /\
  preceded is_Kill is_Quit tr = true /\
  preceded is_RunReturn is_Quit tr = true.
Proof.
  intros H Hp.
  assert (Hcd : preceded is_Cancel is_RelayDone tr = true).
  { rewrite (preceded_ext is_Cancel is_cancellation is_RelayDone tr).
    - exact (exec_done_after_cancel _ _ _ _ H).
    - intros e He. unfold is_cancellation.
      rewrite (occurs_false_all _ _ Hp e He). now rewrite orb_false_r. }
  assert (Hcq : preceded is_Cancel is_Quit tr = true)
    by (apply (preceded_trans _ is_RelayDone); [exact Hcd | exact (quit_after_done _ _ _ _ H)]).
  assert (Hkc : preceded is_Kill is_Cancel tr = true).
  { apply (preceded_main cfg sch st); [sub_main | exact H |].
    generalize (st_main st). intros pc. main_cases pc; reflexivity. }
  assert (Hrk : preceded is_RunReturn is_Kill tr = true).
  { apply (preceded_main cfg sch st); [sub_main | exact H |].
    generalize (st_main st). intros pc. main_cases pc; reflexivity. }
  assert (Hkq : preceded is_Kill is_Quit tr = true)
    by (apply (preceded_trans _ is_Cancel); assumption).
  repeat split; try assumption.
  apply (preceded_trans _ is_Kill); assumption.
Qed.

Lemma quit_follows_kill_unless_session_ends_witness :
  exists st tr,
    exec (Fixtures.cfg_run_with None)
         [StepMain; StepMain; StepMain; StepMain; StepMain; StepMain;
          StepMain; StepMain; StepMain; SelectDone; StepRelay; StepMain]
      = Some (st, tr) /\
    occurs is_ParentDone tr = false /\
    occurs is_Quit tr = true /\
    preceded is_Kill is_Quit tr = true.
Proof.
  run_schedule. split; [reflexivity|]. split; [reflexivity|].
  destruct (quit_follows_kill_unless_session_ends (Fixtures.cfg_run_with None)
              _ _ _ Hexec eq_refl)
    as (_ & _ & Hk & _).
  exact Hk.
Defined.

(** ** The feed after it is closed *)

Lemma repeat_snoc (w : Window) (n : nat) : repeat w n ++ [w] = repeat w (S n).
Proof. induction n as [|n IH]; simpl; [reflexivity | now rewrite IH]. Qed.

Lemma step_main_feed (cfg : Config) (st st' : State) (e : event) :
  step_main cfg st = Some (e, st') ->
  st_feed st' = st_feed st /\ st_feed_closed st' = st_feed_closed st /\
  (forall tr, received (tr ++ [e]) = received tr) /\
  (forall tr, resizes (tr ++ [e]) = resizes tr).
Proof.
  unfold step_main. destruct (st_main st); intros H; inversion H; subst; simpl;
    repeat split; intros; rewrite ?received_snoc, ?resizes_snoc, ?app_nil_r; reflexivity.
Qed.

Lemma step_feed_account (cfg : Config) (c : choice) (st st' : State)
    (tr : list event) (e : event) :
  feed_account st tr -> step cfg c st = Some (e, st') -> feed_account st' (tr ++ [e]).
Proof.
  intros (n & Hn & Hopen & Hbuf) H.
  destruct c; simpl in H.
  - destruct (step_main_feed _ _ _ _ H) as (Hf & Hc & Hr & Hz).
    exists n. rewrite Hf, Hc, Hr, Hz. auto.
  - unfold select_done in H. destruct (st_relay st); try discriminate H.
    destruct (ctx_done st); inversion H; subst; clear H.
    exists n. rewrite received_snoc, resizes_snoc, !app_nil_r. simpl. auto.
  - unfold select_recv in H. destruct (st_relay st); try discriminate H.
    destruct (st_feed st) as [|w q] eqn:Hq.
    + destruct (st_feed_closed st) eqn:Hcl; inversion H; subst; clear H.
      exists (S n). rewrite received_snoc, resizes_snoc, !app_nil_r. simpl.
      rewrite app_nil_r in Hn.
      rewrite Hq, Hcl, app_nil_r, Hn, <- app_assoc.
      split; [f_equal; apply repeat_snoc|].
      split; [discriminate | intros N; now elim N].
    + inversion H; subst; clear H.
      exists n. rewrite received_snoc, resizes_snoc, app_nil_r. simpl.
      rewrite <- app_assoc. simpl. split; [exact Hn|].
      assert (n = 0) by (apply Hbuf; discriminate). auto.
  - unfold step_relay in H. destruct (st_relay st); try discriminate H;
      inversion H; subst; clear H;
      exists n; rewrite received_snoc, resizes_snoc, !app_nil_r; simpl; auto.
  - destruct (_ && negb (st_feed_closed st)) eqn:E; inversion H; subst; clear H.
    apply andb_true_iff in E as [_ E]. apply negb_true_iff in E.
    exists 0. rewrite received_snoc, resizes_snoc, app_nil_r. simpl.
    rewrite (Hopen E), app_nil_r in Hn.
    rewrite app_assoc, Hn, app_nil_r. auto.
  - destruct (_ && negb (st_feed_closed st)) eqn:E; inversion H; subst; clear H.
    apply andb_true_iff in E as [_ E]. apply negb_true_iff in E.
    exists n. rewrite received_snoc, resizes_snoc, !app_nil_r. simpl.
    split; [exact Hn|]. split; [discriminate|]. intros _. exact (Hopen E).
  - destruct (st_parent_done st); inversion H; subst; clear H.
    exists n. rewrite received_snoc, resizes_snoc, !app_nil_r. simpl. auto.
Qed.

Lemma run_feed_account (cfg : Config) (sch : list choice) :
  forall st tr st' tr',
    feed_account st tr -> run cfg sch st tr = Some (st', tr') -> feed_account st' tr'.
Proof.
  induction sch as [|c sch IH]; intros st tr st' tr' HI H; simpl in H.
  - inversion H; subst. exact HI.
  - destruct (step cfg c st) as [[e st1]|] eqn:Hs; [|discriminate].
    apply (IH st1 (tr ++ [e])); [|exact H].
    now apply (step_feed_account cfg c st).
Qed.

Lemma sends_of_received (cfg : Config) (sch : list choice) (st : State) (tr : list event) :
  exec cfg sch = Some (st, tr) ->
  sends tr ++ match st_relay st with RSend w => [toMsg w] | _ => [] end
  = map toMsg (received tr).
Proof.
  intros H. destruct (relay_view _ _ _ _ H) as [ws Hv].
  rewrite <- (sends_relay tr), <- (received_relay tr), Hv.
  unfold sends, received. rewrite !flat_map_app.
  fold (sends (relay_pairs ws)). fold (received (relay_pairs ws)).
  rewrite sends_relay_pairs, received_relay_pairs, map_app.
  destruct (st_relay st); simpl; rewrite ?app_nil_r; reflexivity.
Qed.

(** X14. Closing the feed does not stop the relay, and what it then
    receives is the zero window: in every execution the values received,
    with those still buffered, are the resize events put on the feed
    followed by some number of zero windows; that number is zero while the
    feed is open or still holds events.  Each value received, zero windows
    included, is passed on to [p.Send]. *)
Theorem closed_feed_yields_zero_windows
    (cfg : Config) (sch : list choice) (st : State) (tr : list event) :
  exec cfg sch = Some (st, tr) ->
  (exists n,
     received tr ++ st_feed st = resizes tr ++ repeat zeroWindow n /\
     (st_feed_closed st = false -> n = 0) /\
     (st_feed st <> [] -> n = 0)) /\
  sends tr ++ match st_relay st with RSend w => [toMsg w] | _ => [] end
  = map toMsg (received tr).
Proof.
  intros H. split; [|exact (sends_of_received _ _ _ _ H)].
  apply (run_feed_account cfg sch init [] st tr); [|exact H].
  exists 0. simpl. auto.
Qed.

Lemma closed_feed_yields_zero_windows_witness :
  exists st tr,
    exec (Fixtures.cfg_run_with None)
         [StepMain; StepMain; StepMain; StepMain; StepMain; StepMain;
          Resize Fixtures.w1; CloseFeed; SelectRecv; StepRelay;
          SelectRecv; StepRelay; SelectRecv; StepRelay] = Some (st, tr) /\
    st_feed_closed st = true /\
    resizes tr = [Fixtures.w1] /\
    sends tr = [toMsg Fixtures.w1; toMsg zeroWindow; toMsg zeroWindow] /\
    exists n, received tr ++ st_feed st = resizes tr ++ repeat zeroWindow n.
Proof.
  run_schedule. split; [reflexivity|]. split; [reflexivity|]. split; [reflexivity|].
  destruct (closed_feed_yields_zero_windows (Fixtures.cfg_run_with None) _ _ _ Hexec)
    as ((n & Hn & _) & _).
  exists n. exact Hn.
Defined.

(** ** MakeRenderer on integers outside the four constants *)

Lemma rawProfileNames_at_in (i : Z) :
  (0 <= i < 4)%Z -> exists n, rawProfileNames_at i = Some n.
Proof.
  intros Hi. unfold rawProfileNames_at.
  replace ((0 <=? i) && (i <? 4))%Z with true
    by (symmetry; apply andb_true_iff; split; [apply Z.leb_le | apply Z.ltb_lt]; lia).
  assert (H : (i = 0 \/ i = 1 \/ i = 2 \/ i = 3)%Z) by lia.
  destruct H as [-> | [-> | [-> | ->]]]; eexists; reflexivity.
Qed.

Lemma rawProfileNames_at_below (i : Z) : (i < 0)%Z -> rawProfileNames_at i = None.
Proof.
  intros Hi. unfold rawProfileNames_at.
  replace (0 <=? i)%Z with false by (symmetry; apply Z.leb_gt; lia). reflexivity.
Qed.

(** On the four constants the integer reading and the reading on [Profile]
    are the same function. *)
Lemma MakeRendererRaw_agrees (pf : Platform) (s : Session) (c : store) :
  MakeRendererRaw (profileValue (ColorProfile (newRenderer pf s)))
                  (option_map profileValue (asProfile (Value c minColorProfileKey)))
  = option_map (fun ro => (profileValue (ColorProfile (fst ro)), snd ro))
               (MakeRenderer pf s c).
Proof.
  unfold MakeRenderer, minColorProfile.
  destruct (newRenderer pf s) as [sid C].
  destruct (asProfile (Value c minColorProfileKey)) as [F|];
    destruct C; try destruct F; reflexivity.
Qed.

(** X4. With the renderer's profile one of the four constants,
    [MakeRenderer] panics exactly when the context holds a negative profile
    value, at the index into [profileNames].  Otherwise the renderer ends
    with the smaller of the two integer values, which is never above the
    one it detected and never negative; at most one line is written, and one
    is written exactly when the profile was changed.  A stored value above
    [Ascii] changes nothing. *)
Theorem MakeRenderer_panics_only_below_range (client : Z) (stored : option Z) :
  (0 <= client <= 3)%Z ->
  (MakeRendererRaw client stored = None <->
   exists cp, stored = Some cp /\ (cp < 0)%Z) /\
  (forall v out,
     MakeRendererRaw client stored = Some (v, out) ->
     v = Z.min client (rawMinColorProfile stored) /\
     (0 <= v <= client)%Z /\
     List.length out <= 1 /\
     (out = [] <-> v = client)).
Proof.
  intros Hc. unfold MakeRendererRaw. cbv zeta.
  assert (Hd : stored = None -> rawMinColorProfile stored = 3%Z) by (now intros ->).
  destruct (client >? rawMinColorProfile stored)%Z eqn:Hgt.
  - apply Z.gtb_lt in Hgt.
    destruct (rawProfileNames_at_in client ltac:(lia)) as [n1 ->].
    destruct (Z_lt_ge_dec (rawMinColorProfile stored) 0) as [Hneg | Hpos].
    + rewrite (rawProfileNames_at_below _ Hneg). split.
      * split; [intros _ | reflexivity].
        destruct stored as [cp|]; [exists cp; split; [reflexivity | exact Hneg]|].
        simpl in Hneg. lia.
      * intros v out E. discriminate E.
    + destruct (rawProfileNames_at_in (rawMinColorProfile stored) ltac:(lia)) as [n2 ->].
      split.
      * split; [discriminate|]. intros (cp & -> & Hcp). simpl in Hpos. lia.
      * intros v out E. inversion E; subst. simpl.
        repeat split; try lia; try discriminate.
  - rewrite Z.gtb_ltb in Hgt. apply Z.ltb_ge in Hgt. split.
    + split; [discriminate|]. intros (cp & -> & Hcp). simpl in Hgt. lia.
    + intros v out E. inversion E; subst. simpl.
      repeat split; try lia.
Qed.

Lemma MakeRenderer_panics_only_below_range_witness :
  (0 <= 3 <= 3)%Z /\
  MakeRendererRaw 3 (Some (-1)%Z) = None /\
  MakeRendererRaw 3 (Some 7%Z) = Some (3%Z, []) /\
  (3 = Z.min 3 (rawMinColorProfile (Some 7%Z)))%Z.
Proof.
  split; [lia|].
  destruct (MakeRenderer_panics_only_below_range 3 (Some (-1)%Z) ltac:(lia)) as [Hp _].
  destruct (MakeRenderer_panics_only_below_range 3 (Some 7%Z) ltac:(lia)) as [_ Hv].
  split; [apply Hp; exists (-1)%Z; split; [reflexivity | lia]|].
  split; [reflexivity|].
  exact (proj1 (Hv 3%Z [] eq_refl)).
Defined.
